(** * Score checker: the parsing, validation and scoring core

    A shallow embedding of the core logic functions of [api/check.py] and
    [api/index.py] (a Flask endpoint that validates an input file of
    paintings and an output file of frameglasses, and computes the global
    robotic satisfaction score), followed by the properties proved of them.

    Conventions of the embedding.
    - A Python [str] is a [string]; a character is a code point below 256
      (the Latin-1 range), so the whitespace and digit classes below are
      the restrictions of Python's to that range.
    - A Python [int] is a [Z]; [len] yields a [nat], injected into [Z]
      where the source compares it with an [int].
    - [Set[int]] and [Set[str]] are [gset]s, [Dict[int, Painting]] is a
      [gmap] from [Z].
    - A message built by an f-string is a constructor of [message] that
      carries the interpolated values.
    - The [for] loops become recursion over the lines with the running
      index; an early [return] is the left injection of a sum. *)

From Stdlib Require Import ZArith Ascii String.
From stdpp Require Import gmap strings list fin_maps.

Local Open Scope Z_scope.

(** ** The Python built-ins the source relies on *)

Module Py.

(** [str.isspace] on one character: U+0009..U+000D, U+001C..U+0020,
    U+0085 and U+00A0. [str.strip()] and [str.split()] use this class. *)
Definition isspace (c : ascii) : bool :=
  let n := nat_of_ascii c in
  ((9 <=? n)%nat && (n <=? 13)%nat) || ((28 <=? n)%nat && (n <=? 32)%nat)
  || (n =? 133)%nat || (n =? 160)%nat.

Definition is_empty (s : string) : bool :=
  match s with EmptyString => true | String _ _ => false end.

Fixpoint lstrip (s : string) : string :=
  match s with
  | EmptyString => EmptyString
  | String c s' => if isspace c then lstrip s' else s
  end.

Fixpoint rstrip (s : string) : string :=
  match s with
  | EmptyString => EmptyString
  | String c s' =>
      let r := rstrip s' in
      if is_empty r && isspace c then EmptyString else String c r
  end.

(** [s.strip()] *)
Definition strip (s : string) : string := rstrip (lstrip s).

(** [s.split(sep)] for a one-character separator: never the empty list. *)
Fixpoint split_sep (sep : ascii) (s : string) : list string :=
  match s with
  | EmptyString => [EmptyString]
  | String c s' =>
      if Ascii.eqb c sep then EmptyString :: split_sep sep s'
      else match split_sep sep s' with
           | l :: ls => String c l :: ls
           | [] => [String c EmptyString]
           end
  end.

(** [s.split()]: the maximal runs of non-whitespace characters. *)
Fixpoint split (s : string) : list string :=
  match s with
  | EmptyString => []
  | String c s' =>
      if isspace c then split s'
      else match s' with
           | EmptyString => [String c EmptyString]
           | String c' _ =>
               if isspace c' then String c EmptyString :: split s'
               else match split s' with
                    | t :: ts => String c t :: ts
                    | [] => [String c EmptyString]
                    end
           end
  end.

(** The line feed, the separator of [content.split('\n')]. *)
Definition LF : ascii := ascii_of_nat 10.

(** *** [int(s)]

    CPython first strips the whitespace it recognises here (U+0009..U+000D,
    U+0020, and the non-ASCII spaces, which it rewrites to U+0020; the
    separators U+001C..U+001F are not among them), then reads an optional
    sign and the digits, single underscores allowed between two digits.
    More than [int_max_str_digits] digits raise [ValueError] as well. *)
Definition int_isspace (c : ascii) : bool :=
  let n := nat_of_ascii c in
  ((9 <=? n)%nat && (n <=? 13)%nat) || (n =? 32)%nat
  || (n =? 133)%nat || (n =? 160)%nat.

Fixpoint int_lstrip (s : string) : string :=
  match s with
  | EmptyString => EmptyString
  | String c s' => if int_isspace c then int_lstrip s' else s
  end.

Fixpoint int_rstrip (s : string) : string :=
  match s with
  | EmptyString => EmptyString
  | String c s' =>
      let r := int_rstrip s' in
      if is_empty r && int_isspace c then EmptyString else String c r
  end.

Definition digit_of (c : ascii) : option Z :=
  let n := nat_of_ascii c in
  if (48 <=? n)%nat && (n <=? 57)%nat then Some (Z.of_nat (n - 48)) else None.

(** The default of [sys.get_int_max_str_digits()]. *)
Definition int_max_str_digits : nat := 4300.

(** The digits after the sign: [acc] is the value read so far, [count] the
    number of digits, [after_underscore] whether the previous character was
    an underscore. [None] is [ValueError]. *)
Fixpoint int_digits (acc : Z) (count : nat) (after_underscore : bool)
    (s : string) : option (Z * nat) :=
  match s with
  | EmptyString => if after_underscore then None else Some (acc, count)
  | String c s' =>
      if Ascii.eqb c "_" then
        if after_underscore then None else int_digits acc count true s'
      else
        match digit_of c with
        | Some d => int_digits (10 * acc + d) (S count) false s'
        | None => None
        end
  end.

Definition int_unsigned (s : string) : option Z :=
  match s with
  | EmptyString => None
  | String c _ =>
      if Ascii.eqb c "_" then None
      else match int_digits 0 0 false s with
           | Some (v, count) =>
               if (int_max_str_digits <? count)%nat then None else Some v
           | None => None
           end
  end.

(** [int(s)]; [None] is [ValueError]. *)
Definition int (s : string) : option Z :=
  match int_rstrip (int_lstrip s) with
  | String "-" body => Z.opp <$> int_unsigned body
  | String "+" body => int_unsigned body
  | body => int_unsigned body
  end.

(** The index a slice bound [k] denotes in a list of [len] elements. *)
Definition slice_index (len : nat) (k : Z) : nat :=
  if k <? 0 then Z.to_nat (Z.max 0 (Z.of_nat len + k))
  else Z.to_nat (Z.min k (Z.of_nat len)).

(** [l[start:stop]] *)
Definition slice {A} (l : list A) (start stop : Z) : list A :=
  let a := slice_index (length l) start in
  let b := slice_index (length l) stop in
  take (b - a)%nat (drop a l).

End Py.

Definition nl : string := String Py.LF EmptyString.

(** ** Data model *)

(** [Frame = Tuple[int, Optional[int]]], [Frames = List[Frame]]. *)
Definition Frame : Type := Z * option Z.
Definition Frames : Type := list Frame.

(** [Painting = Dict[str, Any]] with the keys ['id'], ['orientation'] and
    ['tags'] that [read_input_file] stores. *)
Record Painting : Type := mkPainting {
  p_id : Z;
  p_orientation : string;
  p_tags : list string
}.

(** The strings the two parsers put in their message lists. The hard errors
    (returned alone, with [None]) come first, the warnings after them. *)
Inductive message : Type :=
  (* "ERROR: Output file is empty." *)
  | OutputEmptyError
  (* "ERROR: First line must be a valid number for frame count." *)
  | OutputFormatError
  (* "ERROR on line {line_number}: Duplicate painting ID '{parts[0]}' used in the same frame." *)
  | DuplicateInSameFrameError (line_number : nat) (part : string)
  (* "ERROR on line {line_number}: Duplicate painting ID '{painting_id}' is used more than once." *)
  | DuplicateAcrossFramesError (line_number : nat) (painting_id : Z)
  (* "ERROR: The file declared {declared_frames} frames, but found {len(frames)}." *)
  | CountMismatchError (declared_frames : Z) (found : nat)
  (* "ERROR: Input file is empty." *)
  | InputEmptyError
  (* "ERROR: First line of input file must be a number." *)
  | InputFormatError
  (* "WARNING on line {line_number}: Line has invalid number of parts. Skipping." *)
  | InvalidPartsWarning (line_number : nat)
  (* "WARNING on line {line_number}: Skipping invalid line: '{line}'" *)
  | InvalidLineWarning (line_number : nat) (line : string)
  (* "WARNING: Skipping invalid line {i+1} in input file." *)
  | InputInvalidLineWarning (line_number : nat)
  (* "WARNING: Invalid orientation '{orientation}' on line {i+1}. Skipping." *)
  | InvalidOrientationWarning (orientation : string) (line_number : nat)
  (* "WARNING: Not enough tags on line {i+1}. Expected {num_tags}, got {len(parts)-2}." *)
  | NotEnoughTagsWarning (line_number : nat) (num_tags : Z) (got : Z)
  (* "WARNING: Invalid number of tags on line {i+1}. Skipping." *)
  | InvalidTagCountWarning (line_number : nat)
  (* "WARNING: Expected {num_paintings} paintings, but parsed {len(paintings)}." *)
  | InputCountWarning (num_paintings : Z) (parsed : nat).

(** The JSON payload of [check_files] once both texts are decoded. *)
Inductive response : Type :=
  (* {'success': False, 'error': error, 'warnings': warnings} *)
  | ValidationFailure (error : string) (warnings : list message)
  (* {'success': False, 'error': 'Could not compute score.'} *)
  | ScoreFailure
  (* {'success': True, 'num_frames': .., 'num_paintings': .., 'global_score': .., 'warnings': ..} *)
  | Success (num_frames num_paintings : nat) (global_score : Z)
      (warnings : list message).

(** The locals of [read_and_verify_output] that its loop updates. *)
Record output_state : Type := mkOutputState {
  st_frames : Frames;
  st_used_ids : gset Z;
  st_warnings : list message
}.

(** What the inner loop [for part in parts] of [read_and_verify_output]
    ends with: it ran to completion, [int(part)] raised [ValueError], or a
    repeated identifier made the function return. In the first two cases
    the identifiers added to [used_ids] so far stay there. *)
Inductive parts_outcome : Type :=
  | PartsDone (used : gset Z)
  | PartsValueError (used : gset Z)
  | PartsDuplicate (painting_id : Z).

(** What one iteration of the loop of [read_input_file] does with a line:
    [continue] without a message, [continue] after a warning, or the
    assignment [paintings[painting_id] = ...]. *)
Inductive input_outcome : Type :=
  | LineBlank
  | LineWarning (w : message)
  | LineParsed (p : Painting).

(** ** [api/check.py], core logic functions *)

Module Check.

(** The loop [for part in parts] (lines 50-54): each token is converted
    with [int], looked up in [used_ids] and added to it. *)
Fixpoint register_parts (parts : list string) (used_ids : gset Z)
    : parts_outcome :=
  match parts with
  | [] => PartsDone used_ids
  | part :: parts' =>
      match Py.int part with
      | None => PartsValueError used_ids
      | Some painting_id =>
          if decide (painting_id ∈ used_ids) then PartsDuplicate painting_id
          else register_parts parts' ({[painting_id]} ∪ used_ids)
      end
  end.

(** [len(parts) == 2 and parts[0] == parts[1]] (line 47). *)
Definition same_frame_duplicate (parts : list string) : option string :=
  match parts with
  | [p0; p1] => if String.eqb p0 p1 then Some p0 else None
  | _ => None
  end.

(** The handler [except ValueError] (lines 63-64). *)
Definition skip_invalid_line (line_number : nat) (line : string)
    (frames : Frames) (used_ids : gset Z) (warnings : list message)
    : output_state :=
  mkOutputState frames used_ids
    (warnings ++ [InvalidLineWarning line_number line]).

(** One iteration of the loop of [read_and_verify_output] (lines 39-64),
    on [lines[i]]; the left injection is the message of an early return. *)
Definition output_line (i : nat) (raw : string) (st : output_state)
    : message + output_state :=
  let line := Py.strip raw in
  if Py.is_empty line then inr st
  else
    let line_number := (i + 1)%nat in
    let parts := Py.split line in
    match same_frame_duplicate parts with
    | Some p0 => inl (DuplicateInSameFrameError line_number p0)
    | None =>
        match register_parts parts (st_used_ids st) with
        | PartsDuplicate painting_id =>
            inl (DuplicateAcrossFramesError line_number painting_id)
        | PartsValueError used_ids =>
            inr (skip_invalid_line line_number line
                   (st_frames st) used_ids (st_warnings st))
        | PartsDone used_ids =>
            match parts with
            | [p0] =>
                match Py.int p0 with
                | Some id0 =>
                    inr (mkOutputState (st_frames st ++ [(id0, None)])
                           used_ids (st_warnings st))
                | None =>
                    inr (skip_invalid_line line_number line
                           (st_frames st) used_ids (st_warnings st))
                end
            | [p0; p1] =>
                match Py.int p0, Py.int p1 with
                | Some id0, Some id1 =>
                    inr (mkOutputState (st_frames st ++ [(id0, Some id1)])
                           used_ids (st_warnings st))
                | _, _ =>
                    inr (skip_invalid_line line_number line
                           (st_frames st) used_ids (st_warnings st))
                end
            | _ =>
                inr (mkOutputState (st_frames st) used_ids
                       (st_warnings st ++ [InvalidPartsWarning line_number]))
            end
        end
    end.

(** [for i in range(i, len(lines))] over the lines [rest = lines[i:]]. *)
Fixpoint output_lines (i : nat) (rest : list string) (st : output_state)
    : message + output_state :=
  match rest with
  | [] => inr st
  | raw :: rest' =>
      match output_line i raw st with
      | inl e => inl e
      | inr st' => output_lines (S i) rest' st'
      end
  end.

(** [read_and_verify_output] (lines 22-69). *)
Definition read_and_verify_output (content : string)
    : option Frames * list message :=
  match Py.split_sep Py.LF (Py.strip content) with
  | [] => (None, [OutputEmptyError])
  | first :: rest =>
      match Py.int (Py.strip first) with
      | None => (None, [OutputFormatError])
      | Some declared_frames =>
          match output_lines 1 rest (mkOutputState [] ∅ []) with
          | inl e => (None, [e])
          | inr st =>
              if decide (declared_frames ≠ Z.of_nat (length (st_frames st)))
              then (None, [CountMismatchError declared_frames
                             (length (st_frames st))])
              else (Some (st_frames st), st_warnings st)
          end
      end
  end.

(** The body of the loop of [read_input_file] (lines 86-116) on
    [lines[i]], up to the update of [paintings] and [warnings]. *)
Definition input_line (i : nat) (raw : string) : input_outcome :=
  let line := Py.strip raw in
  if Py.is_empty line then LineBlank
  else
    let parts := Py.split line in
    match parts with
    | orientation :: part1 :: _ =>
        if bool_decide (orientation ∈ ["L"; "P"]%string) then
          match Py.int part1 with
          | Some num_tags =>
              if Z.of_nat (length parts) <? 2 + num_tags then
                LineWarning (NotEnoughTagsWarning (i + 1) num_tags
                               (Z.of_nat (length parts) - 2))
              else
                let tags := Py.slice parts 2 (2 + num_tags) in
                let painting_id := Z.of_nat i - 1 in
                LineParsed (mkPainting painting_id orientation tags)
          | None => LineWarning (InvalidTagCountWarning (i + 1))
          end
        else LineWarning (InvalidOrientationWarning orientation (i + 1))
    | _ => LineWarning (InputInvalidLineWarning (i + 1))
    end.

(** [for i in range(i, stop)] over the lines [rest = lines[i:stop]]. *)
Fixpoint input_lines (i : nat) (rest : list string)
    (paintings : gmap Z Painting) (warnings : list message)
    : gmap Z Painting * list message :=
  match rest with
  | [] => (paintings, warnings)
  | raw :: rest' =>
      match input_line i raw with
      | LineBlank => input_lines (S i) rest' paintings warnings
      | LineWarning w => input_lines (S i) rest' paintings (warnings ++ [w])
      | LineParsed p =>
          input_lines (S i) rest' (<[p_id p := p]> paintings) warnings
      end
  end.

(** [read_input_file] (lines 71-121). The loop visits [lines[1:stop]] with
    [stop = min(len(lines), num_paintings + 1)]. *)
Definition read_input_file (content : string)
    : option (gmap Z Painting) * list message :=
  let lines := Py.split_sep Py.LF (Py.strip content) in
  match lines with
  | [] => (None, [InputEmptyError])
  | first :: rest =>
      match Py.int (Py.strip first) with
      | None => (None, [InputFormatError])
      | Some num_paintings =>
          let stop := Z.min (Z.of_nat (length lines)) (num_paintings + 1) in
          let '(paintings, warnings) :=
            input_lines 1 (take (Z.to_nat (stop - 1)) rest) ∅ [] in
          if decide (Z.of_nat (size paintings) ≠ num_paintings)
          then (Some paintings,
                warnings ++ [InputCountWarning num_paintings (size paintings)])
          else (Some paintings, warnings)
      end
  end.

(** [compute_frameglass_tags] (lines 123-136). *)
Definition compute_frameglass_tags (frame : Frame)
    (paintings : gmap Z Painting) : gset string :=
  let '(painting_id1, painting_id2) := frame in
  match painting_id2 with
  | None =>
      match paintings !! painting_id1 with
      | None => ∅
      | Some p1 => list_to_set (p_tags p1)
      end
  | Some painting_id2 =>
      match paintings !! painting_id1, paintings !! painting_id2 with
      | Some p1, Some p2 =>
          let tags1 : gset string := list_to_set (p_tags p1) in
          let tags2 : gset string := list_to_set (p_tags p2) in
          tags1 ∪ tags2
      | _, _ => ∅
      end
  end.

(** [compute_transition_score] (lines 138-143). *)
Definition compute_transition_score (tags1 tags2 : gset string) : Z :=
  let common_tags := tags1 ∩ tags2 in
  let only_in_tags1 := tags1 ∖ tags2 in
  let only_in_tags2 := tags2 ∖ tags1 in
  Z.min (Z.min (Z.of_nat (size common_tags)) (Z.of_nat (size only_in_tags1)))
    (Z.of_nat (size only_in_tags2)).

(** One iteration of the second loop of [compute_global_score]
    (lines 157-158); a subscript out of range gives [None]. *)
Definition add_transition (frameglass_tags : list (gset string))
    (total_score : option Z) (i : nat) : option Z :=
  total ← total_score;
  tags1 ← frameglass_tags !! i;
  tags2 ← frameglass_tags !! (i + 1)%nat;
  Some (total + compute_transition_score tags1 tags2).

(** [compute_global_score] (lines 145-160); its result type is
    [Optional[int]]. *)
Definition compute_global_score (frames : Frames)
    (paintings : gmap Z Painting) : option Z :=
  if (length frames <? 2)%nat then Some 0
  else
    let frameglass_tags :=
      foldl (λ acc frame, acc ++ [compute_frameglass_tags frame paintings])
        [] frames in
    foldl (add_transition frameglass_tags) (Some 0)
      (seq 0 (length frameglass_tags - 1)).

(** [check_files] from the point where both texts are decoded
    (lines 231-273). *)
Definition check_files (input_content output_content : string) : response :=
  let '(frames, output_warnings) := read_and_verify_output output_content in
  match frames with
  | None => ValidationFailure "Output file validation failed." output_warnings
  | Some frames =>
      let '(paintings, input_warnings) := read_input_file input_content in
      match paintings with
      | None =>
          ValidationFailure "Input file validation failed." input_warnings
      | Some paintings =>
          match compute_global_score frames paintings with
          | None => ScoreFailure
          | Some global_score =>
              let all_warnings := output_warnings ++ input_warnings in
              Success (length frames) (size paintings) global_score
                all_warnings
          end
      end
  end.

End Check.

(** ** [api/index.py], core logic functions *)

Module Index.

(** The loop [for part in parts] (lines 154-158): each token is converted
    with [int], looked up in [used_ids] and added to it. *)
Fixpoint register_parts (parts : list string) (used_ids : gset Z)
    : parts_outcome :=
  match parts with
  | [] => PartsDone used_ids
  | part :: parts' =>
      match Py.int part with
      | None => PartsValueError used_ids
      | Some painting_id =>
          if decide (painting_id ∈ used_ids) then PartsDuplicate painting_id
          else register_parts parts' ({[painting_id]} ∪ used_ids)
      end
  end.

(** [len(parts) == 2 and parts[0] == parts[1]] (line 151). *)
Definition same_frame_duplicate (parts : list string) : option string :=
  match parts with
  | [p0; p1] => if String.eqb p0 p1 then Some p0 else None
  | _ => None
  end.

(** The handler [except ValueError] (lines 167-168). *)
Definition skip_invalid_line (line_number : nat) (line : string)
    (frames : Frames) (used_ids : gset Z) (warnings : list message)
    : output_state :=
  mkOutputState frames used_ids
    (warnings ++ [InvalidLineWarning line_number line]).

(** One iteration of the loop of [read_and_verify_output] (lines 143-168),
    on [lines[i]]; the left injection is the message of an early return. *)
Definition output_line (i : nat) (raw : string) (st : output_state)
    : message + output_state :=
  let line := Py.strip raw in
  if Py.is_empty line then inr st
  else
    let line_number := (i + 1)%nat in
    let parts := Py.split line in
    match same_frame_duplicate parts with
    | Some p0 => inl (DuplicateInSameFrameError line_number p0)
    | None =>
        match register_parts parts (st_used_ids st) with
        | PartsDuplicate painting_id =>
            inl (DuplicateAcrossFramesError line_number painting_id)
        | PartsValueError used_ids =>
            inr (skip_invalid_line line_number line
                   (st_frames st) used_ids (st_warnings st))
        | PartsDone used_ids =>
            match parts with
            | [p0] =>
                match Py.int p0 with
                | Some id0 =>
                    inr (mkOutputState (st_frames st ++ [(id0, None)])
                           used_ids (st_warnings st))
                | None =>
                    inr (skip_invalid_line line_number line
                           (st_frames st) used_ids (st_warnings st))
                end
            | [p0; p1] =>
                match Py.int p0, Py.int p1 with
                | Some id0, Some id1 =>
                    inr (mkOutputState (st_frames st ++ [(id0, Some id1)])
                           used_ids (st_warnings st))
                | _, _ =>
                    inr (skip_invalid_line line_number line
                           (st_frames st) used_ids (st_warnings st))
                end
            | _ =>
                inr (mkOutputState (st_frames st) used_ids
                       (st_warnings st ++ [InvalidPartsWarning line_number]))
            end
        end
    end.

(** [for i in range(i, len(lines))] over the lines [rest = lines[i:]]. *)
Fixpoint output_lines (i : nat) (rest : list string) (st : output_state)
    : message + output_state :=
  match rest with
  | [] => inr st
  | raw :: rest' =>
      match output_line i raw st with
      | inl e => inl e
      | inr st' => output_lines (S i) rest' st'
      end
  end.

(** [read_and_verify_output] (lines 126-173). *)
Definition read_and_verify_output (content : string)
    : option Frames * list message :=
  match Py.split_sep Py.LF (Py.strip content) with
  | [] => (None, [OutputEmptyError])
  | first :: rest =>
      match Py.int (Py.strip first) with
      | None => (None, [OutputFormatError])
      | Some declared_frames =>
          match output_lines 1 rest (mkOutputState [] ∅ []) with
          | inl e => (None, [e])
          | inr st =>
              if decide (declared_frames ≠ Z.of_nat (length (st_frames st)))
              then (None, [CountMismatchError declared_frames
                             (length (st_frames st))])
              else (Some (st_frames st), st_warnings st)
          end
      end
  end.

(** The body of the loop of [read_input_file] (lines 190-220) on
    [lines[i]], up to the update of [paintings] and [warnings]. *)
Definition input_line (i : nat) (raw : string) : input_outcome :=
  let line := Py.strip raw in
  if Py.is_empty line then LineBlank
  else
    let parts := Py.split line in
    match parts with
    | orientation :: part1 :: _ =>
        if bool_decide (orientation ∈ ["L"; "P"]%string) then
          match Py.int part1 with
          | Some num_tags =>
              if Z.of_nat (length parts) <? 2 + num_tags then
                LineWarning (NotEnoughTagsWarning (i + 1) num_tags
                               (Z.of_nat (length parts) - 2))
              else
                let tags := Py.slice parts 2 (2 + num_tags) in
                let painting_id := Z.of_nat i - 1 in
                LineParsed (mkPainting painting_id orientation tags)
          | None => LineWarning (InvalidTagCountWarning (i + 1))
          end
        else LineWarning (InvalidOrientationWarning orientation (i + 1))
    | _ => LineWarning (InputInvalidLineWarning (i + 1))
    end.

(** [for i in range(i, stop)] over the lines [rest = lines[i:stop]]. *)
Fixpoint input_lines (i : nat) (rest : list string)
    (paintings : gmap Z Painting) (warnings : list message)
    : gmap Z Painting * list message :=
  match rest with
  | [] => (paintings, warnings)
  | raw :: rest' =>
      match input_line i raw with
      | LineBlank => input_lines (S i) rest' paintings warnings
      | LineWarning w => input_lines (S i) rest' paintings (warnings ++ [w])
      | LineParsed p =>
          input_lines (S i) rest' (<[p_id p := p]> paintings) warnings
      end
  end.

(** [read_input_file] (lines 175-225). The loop visits [lines[1:stop]] with
    [stop = min(len(lines), num_paintings + 1)]. *)
Definition read_input_file (content : string)
    : option (gmap Z Painting) * list message :=
  let lines := Py.split_sep Py.LF (Py.strip content) in
  match lines with
  | [] => (None, [InputEmptyError])
  | first :: rest =>
      match Py.int (Py.strip first) with
      | None => (None, [InputFormatError])
      | Some num_paintings =>
          let stop := Z.min (Z.of_nat (length lines)) (num_paintings + 1) in
          let '(paintings, warnings) :=
            input_lines 1 (take (Z.to_nat (stop - 1)) rest) ∅ [] in
          if decide (Z.of_nat (size paintings) ≠ num_paintings)
          then (Some paintings,
                warnings ++ [InputCountWarning num_paintings (size paintings)])
          else (Some paintings, warnings)
      end
  end.

(** [compute_frameglass_tags] (lines 227-240). *)
Definition compute_frameglass_tags (frame : Frame)
    (paintings : gmap Z Painting) : gset string :=
  let '(painting_id1, painting_id2) := frame in
  match painting_id2 with
  | None =>
      match paintings !! painting_id1 with
      | None => ∅
      | Some p1 => list_to_set (p_tags p1)
      end
  | Some painting_id2 =>
      match paintings !! painting_id1, paintings !! painting_id2 with
      | Some p1, Some p2 =>
          let tags1 : gset string := list_to_set (p_tags p1) in
          let tags2 : gset string := list_to_set (p_tags p2) in
          tags1 ∪ tags2
      | _, _ => ∅
      end
  end.

(** [compute_transition_score] (lines 242-247). *)
Definition compute_transition_score (tags1 tags2 : gset string) : Z :=
  let common_tags := tags1 ∩ tags2 in
  let only_in_tags1 := tags1 ∖ tags2 in
  let only_in_tags2 := tags2 ∖ tags1 in
  Z.min (Z.min (Z.of_nat (size common_tags)) (Z.of_nat (size only_in_tags1)))
    (Z.of_nat (size only_in_tags2)).

(** One iteration of the second loop of [compute_global_score]
    (lines 261-262); a subscript out of range gives [None]. *)
Definition add_transition (frameglass_tags : list (gset string))
    (total_score : option Z) (i : nat) : option Z :=
  total ← total_score;
  tags1 ← frameglass_tags !! i;
  tags2 ← frameglass_tags !! (i + 1)%nat;
  Some (total + compute_transition_score tags1 tags2).

(** [compute_global_score] (lines 249-264); its result type is
    [Optional[int]]. *)
Definition compute_global_score (frames : Frames)
    (paintings : gmap Z Painting) : option Z :=
  if (length frames <? 2)%nat then Some 0
  else
    let frameglass_tags :=
      foldl (λ acc frame, acc ++ [compute_frameglass_tags frame paintings])
        [] frames in
    foldl (add_transition frameglass_tags) (Some 0)
      (seq 0 (length frameglass_tags - 1)).

(** [check_files] from the point where both texts are decoded
    (lines 317-359). *)
Definition check_files (input_content output_content : string) : response :=
  let '(frames, output_warnings) := read_and_verify_output output_content in
  match frames with
  | None => ValidationFailure "Output file validation failed." output_warnings
  | Some frames =>
      let '(paintings, input_warnings) := read_input_file input_content in
      match paintings with
      | None =>
          ValidationFailure "Input file validation failed." input_warnings
      | Some paintings =>
          match compute_global_score frames paintings with
          | None => ScoreFailure
          | Some global_score =>
              let all_warnings := output_warnings ++ input_warnings in
              Success (length frames) (size paintings) global_score
                all_warnings
          end
      end
  end.

End Index.

(** ** Vocabulary of the statements *)

(** The lines both parsers work on: [content.strip().split('\n')]. *)
Definition lines_of (content : string) : list string :=
  Py.split_sep Py.LF (Py.strip content).

(** The tokens of a line: [lines[i].strip().split()]. *)
Definition line_tokens (raw : string) : list string :=
  Py.split (Py.strip raw).

(** The pairs (element i, element i+1) of a list, for i from 0 to n-2. *)
Definition consecutive_pairs {A} (l : list A) : list (A * A) :=
  zip l (tail l).

Definition Zsum (l : list Z) : Z := foldr Z.add 0 l.

(** The transition score between the resolved tag sets of two frames. *)
Definition frame_transition (paintings : gmap Z Painting)
    (pair : Frame * Frame) : Z :=
  Check.compute_transition_score
    (Check.compute_frameglass_tags pair.1 paintings)
    (Check.compute_frameglass_tags pair.2 paintings).

(** The count on the first line, when [int] accepts it. *)
Definition declared_count (content : string) : option Z :=
  match lines_of content with
  | first :: _ => Py.int (Py.strip first)
  | [] => None
  end.

(** The lines after the first one. *)
Definition data_lines (content : string) : list string :=
  tail (lines_of content).

(** The identifiers [int] yields on the tokens of a line, left to right,
    up to the first token it rejects: those the loop [for part in parts]
    gets to see. *)
Fixpoint parsed_ids (parts : list string) : list Z :=
  match parts with
  | [] => []
  | part :: parts' =>
      match Py.int part with
      | Some v => v :: parsed_ids parts'
      | None => []
      end
  end.

(** Every identifier parsed on the given lines, in file order, whether the
    line went on to yield a frame or not. *)
Definition ids_seen (lines : list string) : list Z :=
  lines ≫= λ raw, parsed_ids (line_tokens raw).

(** [v] is the first element of [stream] that occurs in [seen] or earlier
    in [stream]. *)
Definition first_repeat (seen stream : list Z) (v : Z) : Prop :=
  ∃ s1 s2, stream = s1 ++ v :: s2 ∧ NoDup (seen ++ s1) ∧ v ∈ seen ++ s1.

(** The loop invariant of [read_and_verify_output]: [used_ids] holds
    exactly the identifiers [seen], none of them twice. *)
Definition tracks (st : output_state) (seen : list Z) : Prop :=
  st_used_ids st = list_to_set seen ∧ NoDup seen.

(** The frame a well-formed line denotes: one or two integer tokens. *)
Definition frame_of_tokens (parts : list string) : option Frame :=
  match parts with
  | [p0] => id0 ← Py.int p0; Some (id0, None)
  | [p0; p1] => id0 ← Py.int p0; id1 ← Py.int p1; Some (id0, Some id1)
  | _ => None
  end.

Definition frame_ids (frame : Frame) : list Z :=
  match frame with
  | (id0, None) => [id0]
  | (id0, Some id1) => [id0; id1]
  end.

(** The state of the loop of [read_and_verify_output] before its first
    iteration. *)
Definition initial_output_state : output_state := mkOutputState [] ∅ [].

(** ** Example data *)

(** The paintings of the input file "2\nP 2 red blue\nL 1 red\n". *)
Definition two_paintings : gmap Z Painting :=
  <[1 := mkPainting 1 "L" ["red"]]>
    (<[0 := mkPainting 0 "P" ["red"; "blue"]]> ∅).

(** Its text, and an arrangement of the two paintings in one frame. *)
Definition two_paintings_text : string :=
  "2" +:+ nl +:+ "P 2 red blue" +:+ nl +:+ "L 1 red" +:+ nl.
Definition one_frame_text : string := "1" +:+ nl +:+ "0 1" +:+ nl.

(** An output file that declares 2 frames and holds 1, an input file that
    declares 3 paintings and holds 2. *)
Definition short_output_text : string := "2" +:+ nl +:+ "0 1" +:+ nl.
Definition short_input_text : string :=
  "3" +:+ nl +:+ "P 2 red blue" +:+ nl +:+ "L 1 red" +:+ nl.

(** An input file whose first data line is skipped (bad orientation), and
    the mapping read from it: the second data line keeps identifier 1. *)
Definition gap_input_text : string :=
  "2" +:+ nl +:+ "X 1 a" +:+ nl +:+ "L 1 b" +:+ nl.
Definition gap_paintings : gmap Z Painting :=
  <[1 := mkPainting 1 "L" ["b"]]> ∅.

(** A well-formed output file of three frames. *)
Definition three_frames_text : string :=
  "3" +:+ nl +:+ "0 1" +:+ nl +:+ "2" +:+ nl +:+ "+7 03" +:+ nl.
Definition three_frames : Frames := [(0, Some 1); (2, None); (7, Some 3)].

(** Output files in which an identifier of a skipped line comes back:
    the second line has three tokens, respectively a token that is no
    integer; and one in which a line repeats an identifier under two
    spellings. *)
Definition reuse_after_wrong_count_text : string :=
  "1" +:+ nl +:+ "1 2 3" +:+ nl +:+ "1".
Definition reuse_after_bad_token_text : string :=
  "1" +:+ nl +:+ "7 x" +:+ nl +:+ "7".
Definition two_spellings_text : string := "1" +:+ nl +:+ "1 01".

(** Three paintings with tags {a,b,c}, {b,c,d,e} and {c,d,x,y}, one per
    frame: the transitions score min(2,1,2) = 1 and min(2,2,2) = 2. *)
Definition three_paintings : gmap Z Painting :=
  <[2 := mkPainting 2 "L" ["c"; "d"; "x"; "y"]]>
    (<[1 := mkPainting 1 "L" ["b"; "c"; "d"; "e"]]>
       (<[0 := mkPainting 0 "L" ["a"; "b"; "c"]]> ∅)).

(** An output file with a line that is skipped with a warning. *)
Definition one_frame_and_noise_text : string :=
  "1" +:+ nl +:+ "0 1" +:+ nl +:+ "x" +:+ nl.

(** The three paintings with their tags reordered and repeated, and with
    other orientations. *)
Definition three_paintings_shuffled : gmap Z Painting :=
  <[2 := mkPainting 2 "P" ["y"; "x"; "d"; "c"; "c"]]>
    (<[1 := mkPainting 1 "P" ["e"; "b"; "d"; "c"; "b"]]>
       (<[0 := mkPainting 0 "P" ["c"; "a"; "b"; "a"]]> ∅)).

(** ** Vocabulary of the further properties *)

(** The frame a line denotes, if it denotes one. *)
Definition line_frame (raw : string) : option Frame :=
  frame_of_tokens (line_tokens raw).

(** The warning for [lines[i]] when no error stops the parse: none for a
    blank line or a line that denotes a frame; the invalid-line warning
    when some token is no integer; the invalid-parts warning otherwise. *)
Definition line_warning (i : nat) (raw : string) : option message :=
  if Py.is_empty (Py.strip raw) then None
  else
    match line_frame raw with
    | Some _ => None
    | None =>
        if (length (parsed_ids (line_tokens raw))
            <? length (line_tokens raw))%nat
        then Some (InvalidLineWarning (i + 1) (Py.strip raw))
        else Some (InvalidPartsWarning (i + 1))
    end.

Fixpoint lines_warnings (i : nat) (lines : list string) : list message :=
  match lines with
  | [] => []
  | raw :: lines' =>
      option_list (line_warning i raw) ++ lines_warnings (S i) lines'
  end.

(** The hard errors of the arrangement parser, and its warnings. *)
Definition is_output_error (m : message) : Prop :=
  match m with
  | OutputFormatError | DuplicateInSameFrameError _ _
  | DuplicateAcrossFramesError _ _ | CountMismatchError _ _ => True
  | _ => False
  end.

Definition is_output_warning (m : message) : Prop :=
  match m with
  | InvalidPartsWarning _ | InvalidLineWarning _ _ => True
  | _ => False
  end.

(** The lines that are not blank. *)
Definition non_blank (lines : list string) : list string :=
  filter (λ raw, Py.is_empty (Py.strip raw) = false) lines.

(** An output file with a blank line, a line of three tokens and a line
    with a token that is no integer among its three frames. *)
Definition noisy_frames_text : string :=
  "3" +:+ nl +:+ "0 1" +:+ nl +:+ nl +:+ "4 5 6" +:+ nl +:+ "2" +:+ nl
  +:+ "8 x" +:+ nl +:+ "7 3" +:+ nl.

(** The warnings the loop of [read_input_file] adds on the lines
    [lines[i:]], and the paintings it stores, both in line order. *)
Fixpoint input_warnings (i : nat) (lines : list string) : list message :=
  match lines with
  | [] => []
  | raw :: lines' =>
      match Check.input_line i raw with
      | LineWarning w => w :: input_warnings (S i) lines'
      | _ => input_warnings (S i) lines'
      end
  end.

Fixpoint input_parsed (i : nat) (lines : list string) : list Painting :=
  match lines with
  | [] => []
  | raw :: lines' =>
      match Check.input_line i raw with
      | LineParsed p => p :: input_parsed (S i) lines'
      | _ => input_parsed (S i) lines'
      end
  end.

(** An input file with a negative tag count on its second data line. *)
Definition negative_tags_text : string :=
  "2" +:+ nl +:+ "P 2 red blue extra" +:+ nl +:+ "L -3 a b c" +:+ nl.
Definition negative_tags_paintings : gmap Z Painting :=
  <[1 := mkPainting 1 "L" ["a"; "b"]]>
    (<[0 := mkPainting 0 "P" ["red"; "blue"]]> ∅).

(** ** Scoring *)

Section scoring.
Implicit Types (frames : Frames) (paintings : gmap Z Painting).
Implicit Types (T : list (gset string)) (A B : gset string).

Lemma consecutive_pairs_cons2 {X} (a b : X) (l : list X) :
  consecutive_pairs (a :: b :: l) = (a, b) :: consecutive_pairs (b :: l).
Proof. reflexivity. Qed.

Lemma consecutive_pairs_length {X} (l : list X) :
  length (consecutive_pairs l) = (length l - 1)%nat.
Proof.
  destruct l as [|a l]; [done|].
  revert a; induction l as [|b l IH]; intros a; [done|].
  rewrite consecutive_pairs_cons2. simpl length. rewrite IH. simpl. lia.
Qed.

Lemma consecutive_pairs_lookup {X} (l : list X) (i : nat) (x y : X) :
  consecutive_pairs l !! i = Some (x, y) ↔ l !! i = Some x ∧ l !! S i = Some y.
Proof.
  destruct l as [|a l]; [by split; [|intros [? _]]|].
  revert a i; induction l as [|b l IH]; intros a i.
  - split; [done|]. intros [_ H]. by destruct i.
  - rewrite consecutive_pairs_cons2. destruct i as [|i]; simpl.
    + split; [by intros [= -> ->]|]. by intros [[= ->] [= ->]].
    + apply IH.
Qed.

Lemma consecutive_pairs_fmap {X Y} (f : X → Y) (l : list X) :
  consecutive_pairs (f <$> l) = prod_map f f <$> consecutive_pairs l.
Proof.
  destruct l as [|a l]; [done|].
  revert a; induction l as [|b l IH]; intros a; [done|].
  rewrite !fmap_cons, !consecutive_pairs_cons2, fmap_cons.
  f_equal. rewrite <- IH. by rewrite fmap_cons.
Qed.

(** The first loop of [compute_global_score] builds the list of the
    frames' tag sets, in order. *)
Lemma frameglass_tags_loop frames paintings T :
  foldl (λ acc frame, acc ++ [Check.compute_frameglass_tags frame paintings])
    T frames
  = T ++ ((λ frame, Check.compute_frameglass_tags frame paintings) <$> frames).
Proof.
  revert T; induction frames as [|f frames IH]; intros T; simpl.
  - by rewrite app_nil_r.
  - by rewrite IH, <- app_assoc.
Qed.

(** The second loop never subscripts out of range, and adds up the score
    of every pair of neighbours. *)
Lemma total_score_loop (done_ T : list (gset string)) (total : Z) :
  foldl (Check.add_transition (done_ ++ T)) (Some total)
    (seq (length done_) (length T - 1))
  = Some (total +
      Zsum ((λ p, Check.compute_transition_score p.1 p.2)
              <$> consecutive_pairs T)).
Proof.
  revert done_ total; induction T as [|a T IH]; intros done_ total.
  - simpl. f_equal. lia.
  - destruct T as [|b T].
    + simpl. f_equal. lia.
    + replace (length (a :: b :: T) - 1)%nat with (S (length (b :: T) - 1))
        by (simpl; lia).
      rewrite consecutive_pairs_cons2. cbn [seq foldl].
      unfold Check.add_transition at 2. cbn [mbind option_bind].
      rewrite (list_lookup_middle done_ (b :: T) a (length done_) eq_refl).
      rewrite lookup_app_r by lia.
      replace (length done_ + 1 - length done_)%nat with 1%nat by lia.
      cbn [lookup list_lookup mbind option_bind].
      specialize (IH (done_ ++ [a]) (total + Check.compute_transition_score a b)).
      rewrite <- app_assoc in IH. cbn [app] in IH.
      rewrite length_app in IH. cbn [length] in IH.
      replace (length done_ + 1)%nat with (S (length done_)) in IH by lia.
      cbn [length]. rewrite IH. rewrite fmap_cons. cbn [Zsum foldr fst snd]. f_equal.
      unfold Zsum. lia.
Qed.

(** [compute_global_score] always returns a number: the sum over the
    consecutive pairs of frames. *)
Lemma compute_global_score_total frames paintings :
  Check.compute_global_score frames paintings
    = Some (Zsum (frame_transition paintings <$> consecutive_pairs frames)).
Proof.
  unfold Check.compute_global_score.
  destruct (length frames <? 2)%nat eqn:Hlen.
  - apply Nat.ltb_lt in Hlen.
    destruct frames as [|f [|g frames]]; simpl in Hlen; [done|done|lia].
  - rewrite frameglass_tags_loop. cbn [app].
    pose proof (total_score_loop []
      ((λ frame, Check.compute_frameglass_tags frame paintings) <$> frames) 0)
      as H.
    cbn [app length] in H. rewrite H. rewrite Z.add_0_l.
    rewrite consecutive_pairs_fmap, <- list_fmap_compose.
    do 2 f_equal.
Qed.

(** C1. For every frame sequence and painting mapping,
    [compute_global_score] returns the sum, over each pair of consecutive
    frames (frame i and frame i+1, i from 0 to n-2), of the transition
    score between their resolved tag sets; with fewer than 2 frames it
    returns 0. It never returns [None] and never subscripts out of range. *)
Theorem compute_global_score_sum frames paintings :
  Check.compute_global_score frames paintings
    = Some (Zsum (frame_transition paintings <$> consecutive_pairs frames))
  ∧ (∀ i f g, consecutive_pairs frames !! i = Some (f, g)
              ↔ frames !! i = Some f ∧ frames !! S i = Some g)
  ∧ length (consecutive_pairs frames) = (length frames - 1)%nat
  ∧ ((length frames < 2)%nat →
     Check.compute_global_score frames paintings = Some 0).
Proof.
  split_and!.
  - apply compute_global_score_total.
  - intros i f g. apply consecutive_pairs_lookup.
  - apply consecutive_pairs_length.
  - intros Hlen. unfold Check.compute_global_score.
    apply Nat.ltb_lt in Hlen. by rewrite Hlen.
Qed.

Lemma compute_global_score_sum_witness :
  Check.compute_global_score [(0, Some 1)] two_paintings = Some 0
  ∧ Check.compute_global_score [] two_paintings = Some 0.
Proof.
  split.
  - apply (compute_global_score_sum [(0, Some 1)] two_paintings). simpl. lia.
  - apply (compute_global_score_sum [] two_paintings). simpl. lia.
Defined.

End scoring.

Section tag_sets.
Implicit Types (paintings : gmap Z Painting) (A B : gset string).

(** C2. The transition score of two finite tag sets is
    min(|A ∩ B|, |A − B|, |B − A|); it is symmetric, and it lies between 0
    and min(|A|, |B|). *)
Theorem compute_transition_score_min_symmetric_bounded A B :
  Check.compute_transition_score A B
    = Z.of_nat (size (A ∩ B) `min` (size (A ∖ B) `min` size (B ∖ A)))
  ∧ Check.compute_transition_score A B = Check.compute_transition_score B A
  ∧ 0 ≤ Check.compute_transition_score A B
      ≤ Z.of_nat (size A `min` size B).
Proof.
  unfold Check.compute_transition_score.
  assert (B ∩ A = A ∩ B) as -> by apply (comm_L intersection).
  pose proof (subseteq_size _ _ (intersection_subseteq_l A B)) as HA.
  pose proof (subseteq_size _ _ (intersection_subseteq_r A B)) as HB.
  split_and!; lia.
Qed.

(** C3. [compute_frameglass_tags] is total and returns: for a
    single-painting frame whose identifier is absent from the mapping, the
    empty set; for a single-painting frame whose identifier is present, the
    set of that painting's tags; for a two-painting frame with either
    identifier absent, the empty set (no partial union); for a
    two-painting frame with both present, the union of the two tag sets. *)
Theorem compute_frameglass_tags_cases paintings :
  (∀ id1, paintings !! id1 = None →
     Check.compute_frameglass_tags (id1, None) paintings = ∅)
  ∧ (∀ id1 p1, paintings !! id1 = Some p1 →
     Check.compute_frameglass_tags (id1, None) paintings
       = list_to_set (p_tags p1))
  ∧ (∀ id1 id2, paintings !! id1 = None ∨ paintings !! id2 = None →
     Check.compute_frameglass_tags (id1, Some id2) paintings = ∅)
  ∧ (∀ id1 id2 p1 p2,
     paintings !! id1 = Some p1 → paintings !! id2 = Some p2 →
     Check.compute_frameglass_tags (id1, Some id2) paintings
       = list_to_set (p_tags p1) ∪ list_to_set (p_tags p2)).
Proof.
  unfold Check.compute_frameglass_tags. split_and!.
  - by intros id1 ->.
  - by intros id1 p1 ->.
  - intros id1 id2 [-> | ->]; [done|]. by destruct (paintings !! id1).
  - by intros id1 id2 p1 p2 -> ->.
Qed.

Lemma compute_frameglass_tags_cases_witness :
  Check.compute_frameglass_tags (5, None) two_paintings = ∅
  ∧ Check.compute_frameglass_tags (0, None) two_paintings
      = list_to_set ["red"; "blue"]
  ∧ Check.compute_frameglass_tags (0, Some 5) two_paintings = ∅
  ∧ Check.compute_frameglass_tags (5, Some 1) two_paintings = ∅
  ∧ Check.compute_frameglass_tags (0, Some 1) two_paintings
      = list_to_set ["red"; "blue"] ∪ list_to_set ["red"].
Proof.
  destruct (compute_frameglass_tags_cases two_paintings)
    as (Habsent & Hone & Hpartial & Hboth).
  split_and!.
  - apply Habsent. reflexivity.
  - apply (Hone 0 (mkPainting 0 "P" ["red"; "blue"])). reflexivity.
  - apply Hpartial. right. reflexivity.
  - apply Hpartial. left. reflexivity.
  - apply (Hboth 0 1 (mkPainting 0 "P" ["red"; "blue"]) (mkPainting 1 "L" ["red"]));
      reflexivity.
Defined.

End tag_sets.

(** ** The two parsers: first line and final count *)

Lemma split_sep_nonempty sep s : Py.split_sep sep s ≠ [].
Proof.
  destruct s as [|c s]; [done|]. cbn.
  destruct (Ascii.eqb c sep); [done|]. by destruct (Py.split_sep sep s).
Qed.

#[local] Arguments Py.int : simpl never.
#[local] Arguments Py.strip : simpl never.
#[local] Arguments Py.split : simpl never.
#[local] Arguments Py.split_sep : simpl never.

Section parsers.
Implicit Types (content raw line first : string) (rest : list string).
Implicit Types (st : output_state) (e : message).

Lemma lines_of_cons content : ∃ first rest, lines_of content = first :: rest.
Proof.
  unfold lines_of.
  destruct (Py.split_sep Py.LF (Py.strip content)) as [|first rest] eqn:H.
  - by apply split_sep_nonempty in H.
  - eauto.
Qed.

(** The only messages an iteration returns early with are the two
    duplicate errors, on the line the iteration is at. *)
Lemma output_line_error i raw st e :
  Check.output_line i raw st = inl e →
  (∃ p, e = DuplicateInSameFrameError (i + 1) p)
  ∨ (∃ v, e = DuplicateAcrossFramesError (i + 1) v).
Proof.
  unfold Check.output_line. intros H.
  repeat (case_match; simplify_eq); eauto.
Qed.

Lemma output_lines_error i rest st e :
  Check.output_lines i rest st = inl e →
  ∃ k, (∃ p, e = DuplicateInSameFrameError k p)
       ∨ (∃ v, e = DuplicateAcrossFramesError k v).
Proof.
  revert i st; induction rest as [|raw rest IH]; intros i st; [done|].
  simpl. destruct (Check.output_line i raw st) as [e'|st'] eqn:Hline.
  - intros [= ->]. apply output_line_error in Hline. eauto.
  - apply IH.
Qed.

(** [read_and_verify_output] along its three stages: the first line, the
    loop over the other lines, the final count. (The test [if not lines]
    never fires.) *)
Lemma read_and_verify_output_unfold content :
  Check.read_and_verify_output content =
    match declared_count content with
    | None => (None, [OutputFormatError])
    | Some declared =>
        match
          Check.output_lines 1 (data_lines content) initial_output_state
        with
        | inl e => (None, [e])
        | inr st =>
            if decide (declared ≠ Z.of_nat (length (st_frames st)))
            then (None, [CountMismatchError declared (length (st_frames st))])
            else (Some (st_frames st), st_warnings st)
        end
    end.
Proof.
  destruct (lines_of_cons content) as (first & rest & Hlines).
  unfold declared_count, data_lines, Check.read_and_verify_output.
  unfold lines_of in Hlines. unfold lines_of. rewrite Hlines. done.
Qed.

(** The lines the loop of [read_input_file] visits. *)
Lemma input_range content num_paintings :
  let lines := lines_of content in
  take (Z.to_nat (Z.min (Z.of_nat (length lines)) (num_paintings + 1) - 1))
    (data_lines content)
  = take (Z.to_nat num_paintings) (data_lines content).
Proof.
  destruct (lines_of_cons content) as (first & rest & Hlines).
  unfold data_lines. rewrite Hlines. cbn [tail length].
  destruct (decide (num_paintings + 1 ≤ Z.of_nat (S (length rest)))).
  - by rewrite Z.min_r, Z.add_simpl_r by lia.
  - rewrite Z.min_l by lia. rewrite !take_ge by lia. done.
Qed.

(** [read_input_file] along its stages; it fails on the first line only. *)
Lemma read_input_file_unfold content :
  Check.read_input_file content =
    match declared_count content with
    | None => (None, [InputFormatError])
    | Some num_paintings =>
        let result :=
          Check.input_lines 1
            (take (Z.to_nat num_paintings) (data_lines content)) ∅ [] in
        (Some result.1,
         if decide (Z.of_nat (size result.1) ≠ num_paintings)
         then result.2 ++ [InputCountWarning num_paintings (size result.1)]
         else result.2)
    end.
Proof.
  destruct (lines_of_cons content) as (first & rest & Hlines).
  pose proof (input_range content) as Hrange.
  unfold declared_count, data_lines in *. rewrite Hlines in *.
  unfold Check.read_input_file. unfold lines_of in Hlines. rewrite Hlines.
  destruct (Py.int (Py.strip first)) as [num_paintings|]; [|done].
  cbv zeta in *. cbn [tail] in *. rewrite Hrange.
  destruct (Check.input_lines _ _ _ _) as [paintings warnings]. simpl.
  by case_decide.
Qed.

(** C7. Count mismatch is handled asymmetrically. Output file: when the
    loop over the lines completes and the declared frame count differs from
    the number of accepted frames, the parse fails with
    [CountMismatchError] and yields no frames; so a successful parse always
    has the declared number of frames. Input file: once the first line is
    an integer the parse succeeds with the parsed mapping, and when the
    declared count differs from the number of parsed paintings the last
    warning reports the mismatch. *)
Theorem count_mismatch_asymmetry content :
  (∀ declared st,
     declared_count content = Some declared →
     Check.output_lines 1 (data_lines content) initial_output_state = inr st →
     declared ≠ Z.of_nat (length (st_frames st)) →
     Check.read_and_verify_output content
       = (None, [CountMismatchError declared (length (st_frames st))]))
  ∧ (∀ frames warnings,
     Check.read_and_verify_output content = (Some frames, warnings) →
     declared_count content = Some (Z.of_nat (length frames)))
  ∧ (∀ num_paintings paintings earlier,
     declared_count content = Some num_paintings →
     Check.input_lines 1
       (take (Z.to_nat num_paintings) (data_lines content)) ∅ []
       = (paintings, earlier) →
     Z.of_nat (size paintings) ≠ num_paintings →
     Check.read_input_file content
       = (Some paintings,
          earlier ++ [InputCountWarning num_paintings (size paintings)]))
  ∧ (∀ num_paintings,
     declared_count content = Some num_paintings →
     ∃ paintings warnings,
       Check.read_input_file content = (Some paintings, warnings)).
Proof.
  split_and!.
  - intros declared st Hcount Hloop Hne.
    rewrite read_and_verify_output_unfold, Hcount, Hloop. by case_decide.
  - intros frames warnings. rewrite read_and_verify_output_unfold.
    destruct (declared_count content) as [declared|]; [|done].
    destruct (Check.output_lines _ _ _) as [e|st]; [done|].
    case_decide as Hdec; [done|]. intros [= <- _].
    f_equal. lia.
  - intros num_paintings paintings earlier Hcount Hloop Hne.
    rewrite read_input_file_unfold, Hcount, Hloop. simpl. by case_decide.
  - intros num_paintings Hcount.
    rewrite read_input_file_unfold, Hcount. cbv zeta. eauto.
Qed.

Lemma count_mismatch_asymmetry_witness :
  Check.read_and_verify_output short_output_text
    = (None, [CountMismatchError 2 1])
  ∧ Check.read_input_file short_input_text
      = (Some two_paintings, [] ++ [InputCountWarning 3 (size two_paintings)]).
Proof.
  destruct (count_mismatch_asymmetry short_output_text) as (Houtput & _).
  destruct (count_mismatch_asymmetry short_input_text) as (_ & _ & Hinput & _).
  split.
  - apply (Houtput 2 (mkOutputState [(0, Some 1)] {[1; 0]} [])).
    + reflexivity.
    + vm_compute. reflexivity.
    + simpl. lia.
  - apply (Hinput 3 two_paintings []).
    + reflexivity.
    + vm_compute. reflexivity.
    + vm_compute. discriminate.
Defined.

(** C5, as the code has it. For both parsers the parse fails with the
    first-line format error if and only if the first line of the stripped
    text is not accepted by [int] as an integer, of either sign. A negative
    count is therefore no format error: the input parser then succeeds with
    an empty mapping and the count warning, and the output parser fails
    with one of its other errors. *)
Theorem format_error_iff_not_integer content :
  (Check.read_and_verify_output content = (None, [OutputFormatError])
   ↔ declared_count content = None)
  ∧ (Check.read_input_file content = (None, [InputFormatError])
     ↔ declared_count content = None)
  ∧ (∀ n, declared_count content = Some n → n < 0 →
     Check.read_input_file content = (Some ∅, [InputCountWarning n 0])
     ∧ ∃ e, Check.read_and_verify_output content = (None, [e])
            ∧ ((∃ found, e = CountMismatchError n found)
               ∨ (∃ k p, e = DuplicateInSameFrameError k p)
               ∨ (∃ k v, e = DuplicateAcrossFramesError k v))).
Proof.
  split_and!.
  - rewrite read_and_verify_output_unfold.
    destruct (declared_count content) as [declared|]; [|done].
    split; [|done].
    destruct (Check.output_lines _ _ _) as [e|st] eqn:Hloop.
    + intros [= ->]. apply output_lines_error in Hloop.
      destruct Hloop as (k & [[p [=]] | [v [=]]]).
    + by case_decide.
  - rewrite read_input_file_unfold.
    by destruct (declared_count content) as [num_paintings|].
  - intros n Hcount Hneg. split.
    + rewrite read_input_file_unfold, Hcount.
      replace (Z.to_nat n) with 0%nat by lia. cbn.
      case_decide; [done|].
      change (size (∅ : gmap Z Painting)) with 0%nat in *. lia.
    + rewrite read_and_verify_output_unfold, Hcount.
      destruct (Check.output_lines _ _ _) as [e|st] eqn:Hloop.
      * exists e. split; [done|]. apply output_lines_error in Hloop.
        destruct Hloop as (k & [[p ->] | [v ->]]); eauto.
      * case_decide; [|lia]. eexists. split; [done|eauto].
Qed.

Lemma format_error_iff_not_integer_witness :
  Check.read_input_file "-3" = (Some ∅, [InputCountWarning (-3) 0])
  ∧ ∃ e, Check.read_and_verify_output "-3" = (None, [e])
         ∧ ((∃ found, e = CountMismatchError (-3) found)
            ∨ (∃ k p, e = DuplicateInSameFrameError k p)
            ∨ (∃ k v, e = DuplicateAcrossFramesError k v)).
Proof.
  apply (proj2 (proj2 (format_error_iff_not_integer "-3")) (-3)).
  - reflexivity.
  - lia.
Defined.

(** C5 as stated fails on a first line that is a negative integer: [int]
    accepts "-3", so neither parser reports a format error; the input
    parser succeeds, and the output parser reports a count mismatch. *)
Lemma negative_count_is_no_format_error :
  declared_count "-3" = Some (-3)
  ∧ ¬ (0 ≤ -3)
  ∧ Check.read_input_file "-3" = (Some ∅, [InputCountWarning (-3) 0])
  ∧ Check.read_and_verify_output "-3" = (None, [CountMismatchError (-3) 0]).
Proof. split_and!; [reflexivity | lia | vm_compute; reflexivity ..]. Qed.

(** C8. [check_files] validates the output file first. If the output
    parse fails, the response is the output-stage failure carrying the
    output parser's message, whatever the input text is (the input parser's
    result has no part in it). If the output parse succeeds and the input
    parse fails, the response is the input-stage failure. When both
    succeed, the response is a success whose warnings are the output-file
    warnings followed by the input-file warnings. *)
Theorem check_files_output_first input_content output_content :
  (∀ messages,
     Check.read_and_verify_output output_content = (None, messages) →
     ∀ any_input,
       Check.check_files any_input output_content
         = ValidationFailure "Output file validation failed." messages)
  ∧ (∀ frames output_warnings messages,
     Check.read_and_verify_output output_content
       = (Some frames, output_warnings) →
     Check.read_input_file input_content = (None, messages) →
     Check.check_files input_content output_content
       = ValidationFailure "Input file validation failed." messages)
  ∧ (∀ frames paintings output_warnings input_warnings,
     Check.read_and_verify_output output_content
       = (Some frames, output_warnings) →
     Check.read_input_file input_content = (Some paintings, input_warnings) →
     ∃ global_score,
       Check.compute_global_score frames paintings = Some global_score
       ∧ Check.check_files input_content output_content
           = Success (length frames) (size paintings) global_score
               (output_warnings ++ input_warnings)).
Proof.
  unfold Check.check_files. split_and!.
  - by intros messages -> any_input.
  - by intros frames output_warnings messages -> ->.
  - intros frames paintings output_warnings input_warnings -> ->.
    rewrite compute_global_score_total. eauto.
Qed.

(** *** The identifiers of the paintings *)

Lemma input_line_parsed_id i raw p :
  Check.input_line i raw = LineParsed p → p_id p = Z.of_nat i - 1.
Proof.
  unfold Check.input_line. intros H.
  repeat (case_match; simplify_eq); done.
Qed.

(** Entries below the identifiers still to come are left alone. *)
Lemma input_lines_keeps i rest (paintings : gmap Z Painting) warnings k p :
  paintings !! k = Some p → k < Z.of_nat i - 1 →
  (Check.input_lines i rest paintings warnings).1 !! k = Some p.
Proof.
  revert i paintings warnings.
  induction rest as [|raw rest IH]; intros i paintings warnings Hk Hlt; [done|].
  simpl. destruct (Check.input_line i raw) as [|w|q] eqn:Hline.
  - apply IH; [done|lia].
  - apply IH; [done|lia].
  - apply IH; [|lia]. apply input_line_parsed_id in Hline.
    rewrite lookup_insert_ne by lia. done.
Qed.

(** Every line the loop parses is stored under its position. *)
Lemma input_lines_stores i rest (paintings : gmap Z Painting) warnings j raw p :
  rest !! j = Some raw →
  Check.input_line (i + j) raw = LineParsed p →
  (Check.input_lines i rest paintings warnings).1 !! (Z.of_nat (i + j) - 1)
    = Some p.
Proof.
  revert i j paintings warnings.
  induction rest as [|raw0 rest IH]; intros i j paintings warnings Hj Hline;
    [done|].
  destruct j as [|j].
  - simplify_eq/=. rewrite Nat.add_0_r in *. rewrite Hline.
    apply input_lines_keeps; [|lia].
    rewrite (input_line_parsed_id _ _ _ Hline). apply lookup_insert_eq.
  - simpl in Hj. replace (i + S j)%nat with (S i + j)%nat in * by lia.
    simpl. destruct (Check.input_line i raw0); by apply (IH (S i) j).
Qed.

(** Every entry of the result was there before or comes from a line. *)
Lemma input_lines_origin i rest (paintings : gmap Z Painting) warnings k p :
  (Check.input_lines i rest paintings warnings).1 !! k = Some p →
  paintings !! k = Some p
  ∨ ∃ j raw, rest !! j = Some raw
             ∧ Check.input_line (i + j) raw = LineParsed p
             ∧ k = Z.of_nat (i + j) - 1.
Proof.
  revert i paintings warnings.
  induction rest as [|raw rest IH]; intros i paintings warnings; [by left|].
  simpl. intros H.
  assert (∀ paintings' warnings',
    (Check.input_lines (S i) rest paintings' warnings').1 !! k = Some p →
    paintings' !! k = Some p
    ∨ ∃ j raw', (raw :: rest) !! j = Some raw'
                 ∧ Check.input_line (i + j) raw' = LineParsed p
                 ∧ k = Z.of_nat (i + j) - 1) as Hstep.
  { intros paintings' warnings' H'.
    destruct (IH _ _ _ H') as [?|(j & raw' & Hj & Hline & ->)]; [by left|].
    right. exists (S j), raw'.
    replace (i + S j)%nat with (S i + j)%nat by lia. done. }
  destruct (Check.input_line i raw) as [|w|q] eqn:Hline.
  - by apply Hstep in H.
  - by apply Hstep in H.
  - apply Hstep in H as [H|?]; [|by right].
    pose proof (input_line_parsed_id _ _ _ Hline) as Hid.
    rewrite Hid in H. apply lookup_insert_Some in H as [[<- <-]|[_ ?]].
    + right. exists 0%nat, raw. rewrite Nat.add_0_r. done.
    + by left.
Qed.

(** C6. In the mapping [read_input_file] returns, every painting is
    stored under its own identifier, and that identifier is the position
    of the painting's line among the data lines, counted from 0 over all the
    lines whether skipped or not. Conversely every data line among the
    first [num_paintings] that the loop parses is in the mapping under its
    position; a skipped line leaves its position unused. *)
Theorem painting_id_is_line_position content paintings warnings :
  Check.read_input_file content = (Some paintings, warnings) →
  (∀ k p, paintings !! k = Some p →
     p_id p = k
     ∧ ∃ j raw, k = Z.of_nat j
                ∧ data_lines content !! j = Some raw
                ∧ Check.input_line (S j) raw = LineParsed p)
  ∧ (∀ j raw p num_paintings,
     declared_count content = Some num_paintings →
     Z.of_nat j < num_paintings →
     data_lines content !! j = Some raw →
     Check.input_line (S j) raw = LineParsed p →
     paintings !! Z.of_nat j = Some p ∧ p_id p = Z.of_nat j)
  ∧ (∀ j raw,
     data_lines content !! j = Some raw →
     (∀ p, Check.input_line (S j) raw ≠ LineParsed p) →
     paintings !! Z.of_nat j = None).
Proof.
  rewrite read_input_file_unfold.
  destruct (declared_count content) as [num|]; [|done].
  cbv zeta. intros [= <- _].
  set (visited := take (Z.to_nat num) (data_lines content)).
  assert (∀ k p,
    (Check.input_lines 1 visited ∅ []).1 !! k = Some p →
    ∃ j raw, k = Z.of_nat j ∧ data_lines content !! j = Some raw
             ∧ Check.input_line (S j) raw = LineParsed p) as Horigin.
  { intros k p Hk.
    apply input_lines_origin in Hk as [Hk|(j & raw & Hj & Hline & ->)];
      [done|].
    exists j, raw. split_and!; [lia| |done].
    unfold visited in Hj. apply lookup_take_Some in Hj. tauto. }
  split_and!.
  - intros k p Hk. destruct (Horigin k p Hk) as (j & raw & -> & Hj & Hline).
    split; [|eauto]. rewrite (input_line_parsed_id _ _ _ Hline). lia.
  - intros j raw p ? [= <-] Hlt Hj Hline.
    split; [|rewrite (input_line_parsed_id _ _ _ Hline); lia].
    replace (Z.of_nat j) with (Z.of_nat (1 + j) - 1) by lia.
    apply input_lines_stores with raw; [|done].
    unfold visited. apply lookup_take_Some. split; [done|lia].
  - intros j raw Hj Hnone.
    destruct (_ !! Z.of_nat j) as [p|] eqn:Hk; [|done].
    destruct (Horigin _ p Hk) as (j' & raw' & Hjj & Hj' & Hline).
    apply Nat2Z.inj in Hjj as <-. simplify_eq. by destruct (Hnone p).
Qed.

Lemma painting_id_is_line_position_witness :
  (gap_paintings !! 1 = Some (mkPainting 1 "L" ["b"])
   ∧ p_id (mkPainting 1 "L" ["b"]) = 1)
  ∧ gap_paintings !! 0 = None.
Proof.
  destruct (painting_id_is_line_position gap_input_text gap_paintings
              [InvalidOrientationWarning "X" 2; InputCountWarning 2 1])
    as (_ & Hstored & Hskipped).
  - vm_compute. reflexivity.
  - split.
    + apply (Hstored 1%nat "L 1 b"%string _ 2); [reflexivity|lia|reflexivity..].
    + apply (Hskipped 0%nat "X 1 a"%string); [reflexivity|].
      intros p. vm_compute. discriminate.
Defined.

Lemma check_files_output_first_witness :
  (∀ any_input,
     Check.check_files any_input short_output_text
       = ValidationFailure "Output file validation failed."
           [CountMismatchError 2 1])
  ∧ ∃ global_score,
      Check.compute_global_score [(0, Some 1)] two_paintings
        = Some global_score
      ∧ Check.check_files short_input_text one_frame_and_noise_text
          = Success (length [(0, Some 1)]) (size two_paintings) global_score
              ([InvalidLineWarning 3 "x"] ++ [InputCountWarning 3 2]).
Proof.
  split.
  - apply (proj1 (check_files_output_first "" short_output_text)).
    vm_compute. reflexivity.
  - apply (proj2 (proj2 (check_files_output_first short_input_text
                           one_frame_and_noise_text))).
    + vm_compute. reflexivity.
    + vm_compute. reflexivity.
Defined.

End parsers.

(** ** The arrangement parser: identifiers used more than once *)

Section used_ids.
Implicit Types (raw : string) (parts : list string) (st : output_state).
Implicit Types (seen stream ids : list Z) (used : gset Z) (v : Z).

Lemma first_repeat_not_NoDup seen stream v :
  first_repeat seen stream v → ¬ NoDup (seen ++ stream).
Proof.
  intros (s1 & s2 & -> & _ & Hin) Hnd.
  rewrite app_assoc in Hnd. apply NoDup_app in Hnd as (_ & Hdisj & _).
  apply (Hdisj v Hin). left.
Qed.

Lemma first_repeat_shift seen x stream v :
  first_repeat (seen ++ [x]) stream v → first_repeat seen (x :: stream) v.
Proof.
  intros (s1 & s2 & -> & Hnd & Hin). exists (x :: s1), s2.
  rewrite <- app_assoc in Hnd, Hin. done.
Qed.

Lemma list_to_set_snoc seen x :
  {[x]} ∪ list_to_set seen =@{gset Z} list_to_set (seen ++ [x]).
Proof.
  rewrite list_to_set_app_L, list_to_set_cons, list_to_set_nil.
  rewrite (right_id_L ∅ (∪)). apply (comm_L union).
Qed.

Lemma NoDup_snoc_fresh seen x : NoDup seen → x ∉ seen → NoDup (seen ++ [x]).
Proof.
  intros Hnd Hx. apply NoDup_app. split_and!; [done| |apply NoDup_singleton].
  intros y Hy ->%list_elem_of_singleton. done.
Qed.

(** What the loop over the tokens of one line amounts to. *)
Lemma register_parts_outcome parts used seen :
  used = list_to_set seen → NoDup seen →
  match Check.register_parts parts used with
  | PartsDuplicate v => first_repeat seen (parsed_ids parts) v
  | PartsDone used' =>
      used' = list_to_set (seen ++ parsed_ids parts)
      ∧ NoDup (seen ++ parsed_ids parts)
      ∧ Forall2 (λ p id, Py.int p = Some id) parts (parsed_ids parts)
  | PartsValueError used' =>
      used' = list_to_set (seen ++ parsed_ids parts)
      ∧ NoDup (seen ++ parsed_ids parts)
      ∧ (length (parsed_ids parts) < length parts)%nat
  end.
Proof.
  revert used seen. induction parts as [|p parts IH]; intros used seen -> Hnd.
  - simpl. rewrite app_nil_r. done.
  - simpl. destruct (Py.int p) as [x|] eqn:Hp.
    + case_decide as Hin.
      * exists [], (parsed_ids parts). rewrite app_nil_r.
        split_and!; [done..|]. by apply elem_of_list_to_set in Hin.
      * rewrite elem_of_list_to_set in Hin.
        specialize (IH ({[x]} ∪ list_to_set seen) (seen ++ [x])
                      (list_to_set_snoc seen x) (NoDup_snoc_fresh _ _ Hnd Hin)).
        destruct (Check.register_parts parts _) as [used'|used'|v].
        -- rewrite <- app_assoc in IH. destruct IH as (? & ? & ?).
           split_and!; [done..|]. by constructor.
        -- rewrite <- app_assoc in IH. destruct IH as (? & ? & ?).
           split_and!; [done..|]. simpl. lia.
        -- by apply first_repeat_shift.
    + rewrite app_nil_r. split_and!; [done..|]. simpl. lia.
Qed.

Lemma register_parts_first_repeat parts used seen v :
  used = list_to_set seen →
  first_repeat seen (parsed_ids parts) v →
  Check.register_parts parts used = PartsDuplicate v.
Proof.
  intros -> (s1 & s2 & Heq & Hnd & Hin).
  revert parts seen Heq Hnd Hin.
  induction s1 as [|x s1 IH]; intros parts seen Heq Hnd Hin.
  - destruct parts as [|p parts]; [done|]. simpl in *.
    destruct (Py.int p) as [x|]; [|done]. simplify_eq.
    rewrite app_nil_r in Hin. rewrite decide_True; [done|].
    by apply elem_of_list_to_set.
  - destruct parts as [|p parts]; [done|]. simpl in *.
    destruct (Py.int p) as [y|]; [|done]. simplify_eq.
    assert (x ∉ seen) as Hx.
    { apply NoDup_app in Hnd as (_ & Hdisj & _). intros Hx.
      apply (Hdisj x Hx). left. }
    rewrite decide_False by by rewrite elem_of_list_to_set.
    rewrite list_to_set_snoc. apply IH; [done|..].
    + by rewrite <- app_assoc.
    + by rewrite <- app_assoc.
Qed.

Lemma line_tokens_blank raw :
  Py.is_empty (Py.strip raw) = true → line_tokens raw = [].
Proof.
  unfold line_tokens. by destruct (Py.strip raw).
Qed.

(** An iteration that does not return keeps the invariant, with the
    identifiers parsed on its line added, whatever became of the line. *)
Lemma output_line_continue i raw st st' seen :
  tracks st seen →
  Check.output_line i raw st = inr st' →
  Check.same_frame_duplicate (line_tokens raw) = None
  ∧ tracks st' (seen ++ parsed_ids (line_tokens raw)).
Proof.
  intros [Hused Hnd]. unfold Check.output_line.
  destruct (Py.is_empty (Py.strip raw)) eqn:Hblank.
  { intros [= <-]. rewrite (line_tokens_blank _ Hblank). simpl.
    by rewrite app_nil_r. }
  fold (line_tokens raw).
  destruct (Check.same_frame_duplicate (line_tokens raw)); [done|].
  pose proof (register_parts_outcome (line_tokens raw) _ _ Hused Hnd) as H.
  destruct (Check.register_parts _ _) as [used'|used'|v]; [| |done].
  - destruct H as (-> & Hnd' & _). intros Hst'. split; [done|].
    unfold Check.skip_invalid_line in Hst'.
    repeat (case_match; simplify_eq); done.
  - destruct H as (-> & Hnd' & _). by intros [= <-].
Qed.

Lemma output_line_across i raw st seen ln v :
  tracks st seen →
  Check.output_line i raw st = inl (DuplicateAcrossFramesError ln v) →
  ln = (i + 1)%nat
  ∧ Check.same_frame_duplicate (line_tokens raw) = None
  ∧ first_repeat seen (parsed_ids (line_tokens raw)) v.
Proof.
  intros [Hused Hnd]. unfold Check.output_line.
  destruct (Py.is_empty (Py.strip raw)); [done|].
  fold (line_tokens raw).
  destruct (Check.same_frame_duplicate (line_tokens raw)); [done|].
  pose proof (register_parts_outcome (line_tokens raw) _ _ Hused Hnd) as H.
  destruct (Check.register_parts _ _) as [used'|used'|v'].
  - intros Hst'. unfold Check.skip_invalid_line in Hst'.
    repeat (case_match; simplify_eq).
  - done.
  - by intros [= <- <-].
Qed.

Lemma output_line_first_repeat i raw st seen v :
  tracks st seen →
  Check.same_frame_duplicate (line_tokens raw) = None →
  first_repeat seen (parsed_ids (line_tokens raw)) v →
  Check.output_line i raw st = inl (DuplicateAcrossFramesError (i + 1) v).
Proof.
  intros [Hused Hnd] Hsame Hrep. unfold Check.output_line.
  destruct (Py.is_empty (Py.strip raw)) eqn:Hblank.
  { rewrite (line_tokens_blank _ Hblank) in Hrep.
    destruct Hrep as ([|??] & ? & ? & _); done. }
  fold (line_tokens raw). rewrite Hsame.
  by rewrite (register_parts_first_repeat _ _ seen v).
Qed.

Lemma output_line_no_repeat i raw st seen :
  tracks st seen →
  Check.same_frame_duplicate (line_tokens raw) = None →
  NoDup (seen ++ parsed_ids (line_tokens raw)) →
  ∃ st', Check.output_line i raw st = inr st'.
Proof.
  intros [Hused Hnd] Hsame Hnd'.
  destruct (Check.output_line i raw st) as [e|st'] eqn:Hline; [|eauto].
  destruct (output_line_error _ _ _ _ Hline) as [[p ->]|[v ->]].
  - unfold Check.output_line in Hline.
    destruct (Py.is_empty (Py.strip raw)); [done|].
    fold (line_tokens raw) in Hline. rewrite Hsame in Hline.
    repeat (case_match; simplify_eq).
  - apply (output_line_across _ _ _ seen) in Hline as (_ & _ & Hrep);
      [|done]. by apply first_repeat_not_NoDup in Hrep.
Qed.

Lemma ids_seen_cons raw (lines : list string) :
  ids_seen (raw :: lines) = parsed_ids (line_tokens raw) ++ ids_seen lines.
Proof. reflexivity. Qed.

(** The loop returns the cross-frame error at the first line whose parsed
    identifiers repeat one parsed before, if no line up to there repeats a
    token textually. *)
Lemma output_lines_across i (rest : list string) st seen ln v :
  tracks st seen →
  Check.output_lines i rest st = inl (DuplicateAcrossFramesError ln v) →
  ∃ before raw after,
    rest = before ++ raw :: after
    ∧ ln = (i + length before + 1)%nat
    ∧ Forall (λ l, Check.same_frame_duplicate (line_tokens l) = None)
        (before ++ [raw])
    ∧ first_repeat (seen ++ ids_seen before) (parsed_ids (line_tokens raw)) v.
Proof.
  revert i st seen. induction rest as [|raw0 rest IH]; intros i st seen Hst;
    [done|].
  simpl. destruct (Check.output_line i raw0 st) as [e|st'] eqn:Hline.
  - intros [= ->].
    apply (output_line_across _ _ _ seen) in Hline as (-> & Hsame & Hrep);
      [|done].
    exists [], raw0, rest. simpl. rewrite app_nil_r, Nat.add_0_r.
    split_and!; [done..|by constructor|done].
  - apply (output_line_continue _ _ _ _ seen) in Hline as [Hsame Hst'];
      [|done].
    intros Hrest.
    destruct (IH _ _ _ Hst' Hrest) as (before & raw & after & -> & -> & Hall & Hrep).
    exists (raw0 :: before), raw, after.
    rewrite ids_seen_cons, app_assoc.
    split_and!; [done|simpl; lia|simpl; by constructor|done].
Qed.

Lemma output_lines_first_repeat i (before : list string) raw after st seen v :
  tracks st seen →
  Forall (λ l, Check.same_frame_duplicate (line_tokens l) = None)
    (before ++ [raw]) →
  first_repeat (seen ++ ids_seen before) (parsed_ids (line_tokens raw)) v →
  Check.output_lines i (before ++ raw :: after) st
    = inl (DuplicateAcrossFramesError (i + length before + 1) v).
Proof.
  revert i st seen.
  induction before as [|raw0 before IH]; intros i st seen Hst Hall Hrep.
  - simpl in *. rewrite app_nil_r in Hrep.
    pose proof (proj1 (Forall_singleton _ _) Hall) as Hsame.
    rewrite (output_line_first_repeat _ _ _ seen v), Nat.add_0_r; done.
  - simpl in Hall. apply Forall_cons in Hall as [Hsame Hall].
    rewrite ids_seen_cons, app_assoc in Hrep.
    assert (NoDup (seen ++ parsed_ids (line_tokens raw0))) as Hnd.
    { destruct Hrep as (s1 & _ & _ & Hnd & _).
      rewrite <- !app_assoc in Hnd. rewrite app_assoc in Hnd.
      by apply NoDup_app in Hnd as (? & _). }
    destruct (output_line_no_repeat i raw0 st seen Hst Hsame Hnd)
      as [st' Hline].
    simpl. rewrite Hline.
    apply (output_line_continue _ _ _ _ seen) in Hline as [_ Hst']; [|done].
    rewrite (IH (S i) st' _ Hst' Hall Hrep).
    by replace (S i + length before + 1)%nat
      with (i + S (length before) + 1)%nat by lia.
Qed.

Lemma tracks_initial : tracks initial_output_state [].
Proof. split; [done|constructor]. Qed.

(** A line that denotes a frame has exactly the frame's identifiers
    parsed. *)
Lemma frame_of_tokens_ids parts (frame : Frame) :
  frame_of_tokens parts = Some frame → parsed_ids parts = frame_ids frame.
Proof.
  destruct parts as [|p0 [|p1 [|??]]]; simpl; [done| | |done].
  - destruct (Py.int p0); [|done]. by intros [= <-].
  - destruct (Py.int p0), (Py.int p1); try done. by intros [= <-].
Qed.

(** C4, as the code has it. [read_and_verify_output] fails with the
    cross-frame duplicate error for line [ln] and identifier [v] exactly
    when: the first line is an integer; no line up to line [ln] holds two
    textually equal tokens; and on line [ln] the token that parses to [v]
    is the first in the file whose identifier was already parsed from an
    earlier token, be it on an earlier line (one that yielded a frame or
    one skipped with a warning) or earlier on the same line. The
    identifiers of a line that yields a frame are among those parsed. *)
Theorem duplicate_across_frames_iff content ln v :
  (Check.read_and_verify_output content
     = (None, [DuplicateAcrossFramesError ln v])
   ↔ ∃ before raw after,
       is_Some (declared_count content)
       ∧ data_lines content = before ++ raw :: after
       ∧ ln = (length before + 2)%nat
       ∧ Forall (λ l, Check.same_frame_duplicate (line_tokens l) = None)
           (before ++ [raw])
       ∧ first_repeat (ids_seen before) (parsed_ids (line_tokens raw)) v)
  ∧ (∀ l frame, frame_of_tokens (line_tokens l) = Some frame →
       parsed_ids (line_tokens l) = frame_ids frame).
Proof.
  split; [|intros l frame; apply frame_of_tokens_ids].
  rewrite read_and_verify_output_unfold. split.
  - destruct (declared_count content) as [declared|]; [|done].
    destruct (Check.output_lines _ _ _) as [e|st] eqn:Hloop;
      [|by case_decide].
    intros [= ->].
    apply (output_lines_across _ _ _ []) in Hloop
      as (before & raw & after & Hlines & -> & Hall & Hrep);
      [|apply tracks_initial].
    exists before, raw, after. split_and!; [done|done|lia|done|done].
  - intros (before & raw & after & [declared Hcount] & Hlines & -> & Hall & Hrep).
    rewrite Hcount, Hlines.
    rewrite (output_lines_first_repeat 1 before raw after _ [] v);
      [|apply tracks_initial|done|done].
    by replace (1 + length before + 1)%nat with (length before + 2)%nat by lia.
Qed.

(** C4 as stated fails: an identifier that appeared only on a skipped
    line does make a later use fail. In the first text line 2 has three
    tokens, in the second its second token is no integer: either way line 2
    yields a warning and no frame, and line 3 fails on the identifier line
    2 registered. In the third text the error comes on the first data
    line, with no earlier line at all. *)
Lemma skipped_line_ids_stay_used :
  Check.output_lines 1 ["1 2 3"%string] initial_output_state
    = inr (mkOutputState [] (list_to_set [1; 2; 3]) [InvalidPartsWarning 2])
  ∧ Check.read_and_verify_output reuse_after_wrong_count_text
      = (None, [DuplicateAcrossFramesError 3 1])
  ∧ Check.output_lines 1 ["7 x"%string] initial_output_state
      = inr (mkOutputState [] (list_to_set [7]) [InvalidLineWarning 2 "7 x"])
  ∧ Check.read_and_verify_output reuse_after_bad_token_text
      = (None, [DuplicateAcrossFramesError 3 7])
  ∧ Check.read_and_verify_output two_spellings_text
      = (None, [DuplicateAcrossFramesError 2 1]).
Proof. split_and!; vm_compute; reflexivity. Qed.

(** *** Well-formed arrangements *)

(** A line that denotes a frame, with identifiers not parsed before, adds
    that frame and nothing else. *)
Lemma output_line_well_formed i raw st seen (frame : Frame) :
  tracks st seen →
  frame_of_tokens (line_tokens raw) = Some frame →
  NoDup (seen ++ frame_ids frame) →
  ∃ st', Check.output_line i raw st = inr st'
         ∧ st_frames st' = st_frames st ++ [frame]
         ∧ st_warnings st' = st_warnings st
         ∧ tracks st' (seen ++ frame_ids frame).
Proof.
  intros [Hused Hseen] Hframe Hnd.
  pose proof (frame_of_tokens_ids _ _ Hframe) as Hids.
  rewrite <- Hids in Hnd.
  pose proof (register_parts_outcome (line_tokens raw) _ _ Hused Hseen) as H.
  unfold Check.output_line.
  destruct (Py.is_empty (Py.strip raw)) eqn:Hblank;
    [by rewrite (line_tokens_blank _ Hblank) in Hframe|].
  fold (line_tokens raw).
  destruct (Check.register_parts _ _) as [used'|used'|v] eqn:Hreg.
  - destruct H as (-> & _ & _). rewrite Hids in *.
    destruct (line_tokens raw) as [|p0 [|p1 [|??]]]; try done; simpl in *.
    + destruct (Py.int p0) as [id0|]; [|done]. simplify_eq/=.
      eexists. split_and!; [done..|]. by split.
    + destruct (Py.int p0) as [id0|] eqn:H0; [|done].
      destruct (Py.int p1) as [id1|] eqn:H1; [|done]. simplify_eq/=.
      destruct (String.eqb_spec p0 p1) as [->|].
      * simplify_eq. apply NoDup_app in Hnd as (_ & _ & Hnd).
        apply NoDup_cons in Hnd as [Hnd _]. destruct Hnd. left.
      * eexists. split_and!; [done..|]. by split.
  - destruct H as (_ & _ & Hlen). rewrite Hids in Hlen.
    destruct (line_tokens raw) as [|p0 [|p1 [|??]]]; try done; simpl in *;
      repeat (case_match; simplify_eq/=); lia.
  - by apply first_repeat_not_NoDup in H.
Qed.

Lemma output_lines_well_formed i (rest : list string) (frames : Frames) st seen :
  tracks st seen →
  Forall2 (λ raw frame, frame_of_tokens (line_tokens raw) = Some frame)
    rest frames →
  NoDup (seen ++ (frames ≫= frame_ids)) →
  ∃ st', Check.output_lines i rest st = inr st'
         ∧ st_frames st' = st_frames st ++ frames
         ∧ st_warnings st' = st_warnings st.
Proof.
  intros Hst Hall. revert i st seen Hst.
  induction Hall as [|raw frame rest frames Hframe Hall IH];
    intros i st seen Hst Hnd.
  - exists st. by rewrite app_nil_r.
  - change ((frame :: frames) ≫= frame_ids)
      with (frame_ids frame ++ (frames ≫= frame_ids)) in Hnd.
    rewrite app_assoc in Hnd.
    assert (NoDup (seen ++ frame_ids frame)) as Hnd1
      by by apply NoDup_app in Hnd as (? & _).
    destruct (output_line_well_formed i raw st seen frame Hst Hframe Hnd1)
      as (st1 & Hline & Hframes1 & Hwarnings1 & Hst1).
    destruct (IH (S i) st1 _ Hst1 Hnd) as (st' & Hloop & Hframes & Hwarnings).
    exists st'. simpl. rewrite Hline.
    split_and!; [done| |congruence].
    by rewrite Hframes, Hframes1, <- app_assoc.
Qed.

(** C9. An output text whose first line declares N and which has exactly
    N further lines, each of one or two integer tokens, with no identifier
    occurring twice in the file, parses successfully to the N frames the
    lines denote, in the order of the lines, with no warning. *)
Theorem well_formed_output_round_trip content (frames : Frames) :
  declared_count content = Some (Z.of_nat (length (data_lines content))) →
  Forall2 (λ raw frame, frame_of_tokens (line_tokens raw) = Some frame)
    (data_lines content) frames →
  NoDup (frames ≫= frame_ids) →
  Check.read_and_verify_output content = (Some frames, [])
  ∧ length frames = length (data_lines content).
Proof.
  intros Hcount Hall Hnd.
  pose proof (Forall2_length _ _ _ Hall) as Hlen. split; [|done].
  destruct (output_lines_well_formed 1 _ _ initial_output_state []
              tracks_initial Hall Hnd) as (st & Hloop & Hframes & Hwarnings).
  rewrite read_and_verify_output_unfold, Hcount, Hloop.
  simpl in Hframes, Hwarnings. rewrite Hframes, Hwarnings.
  case_decide; [lia|done].
Qed.

Lemma well_formed_output_round_trip_witness :
  Check.read_and_verify_output three_frames_text = (Some three_frames, [])
  ∧ length three_frames = length (data_lines three_frames_text).
Proof.
  apply (well_formed_output_round_trip three_frames_text three_frames).
  - reflexivity.
  - repeat constructor.
  - apply (bool_decide_unpack _). vm_compute. reflexivity.
Defined.

End used_ids.

(** ** Further properties of the scorer *)

(* [set_solver] clears hypotheses by name and warns when one is gone. *)
#[local] Set Warnings "-clear-no-such-hyp".

Section scorer_bounds.
Implicit Types (frames : Frames) (paintings : gmap Z Painting).
Implicit Types (A B : gset string).

Lemma size_split A B : size A = (size (A ∩ B) + size (A ∖ B))%nat.
Proof.
  rewrite <- size_union by set_solver.
  f_equal. apply set_eq. intros x.
  rewrite elem_of_union, elem_of_intersection, elem_of_difference.
  destruct (decide (x ∈ B)); tauto.
Qed.

Lemma transition_score_range A B :
  0 ≤ Check.compute_transition_score A B
  ∧ 2 * Check.compute_transition_score A B ≤ Z.of_nat (size A)
  ∧ 2 * Check.compute_transition_score A B ≤ Z.of_nat (size B).
Proof.
  unfold Check.compute_transition_score.
  pose proof (size_split A B) as HA. pose proof (size_split B A) as HB.
  assert (B ∩ A = A ∩ B) as Hcomm by apply (comm_L intersection).
  rewrite Hcomm in HB. lia.
Qed.

Lemma transition_score_comm A B :
  Check.compute_transition_score A B = Check.compute_transition_score B A.
Proof.
  unfold Check.compute_transition_score.
  assert (B ∩ A = A ∩ B) as -> by apply (comm_L intersection). lia.
Qed.

(** X1. A transition scores at most half the size of the smaller tag
    set, and it scores 0 exactly when the two tag sets are disjoint or one
    of them is included in the other (so, in particular, when one is
    empty or when they are equal). *)
Theorem transition_score_half_and_zero A B :
  2 * Check.compute_transition_score A B ≤ Z.of_nat (size A `min` size B)
  ∧ (Check.compute_transition_score A B = 0 ↔ A ## B ∨ A ⊆ B ∨ B ⊆ A).
Proof.
  unfold Check.compute_transition_score.
  pose proof (size_split A B) as HA. pose proof (size_split B A) as HB.
  assert (B ∩ A = A ∩ B) as Hcomm by apply (comm_L intersection).
  rewrite Hcomm in HB.
  split; [lia|].
  assert (size (A ∩ B) = 0%nat ↔ A ## B) as Hdisj.
  { rewrite size_empty_iff. set_solver. }
  assert (size (A ∖ B) = 0%nat ↔ A ⊆ B) as Hsub1.
  { rewrite size_empty_iff. split; [|set_solver].
    intros Hempty x Hx. destruct (decide (x ∈ B)); [done|].
    exfalso. apply (not_elem_of_empty (C:=gset string) x).
    apply Hempty. set_solver. }
  assert (size (B ∖ A) = 0%nat ↔ B ⊆ A) as Hsub2.
  { rewrite size_empty_iff. split; [|set_solver].
    intros Hempty x Hx. destruct (decide (x ∈ A)); [done|].
    exfalso. apply (not_elem_of_empty (C:=gset string) x).
    apply Hempty. set_solver. }
  rewrite <- Hdisj, <- Hsub1, <- Hsub2. lia.
Qed.

(** The scores of the pairs add up to a number that is not negative and
    at most half the total number of tags. *)
Lemma pair_sum_range paintings frames :
  0 ≤ Zsum (frame_transition paintings <$> consecutive_pairs frames)
  ∧ 2 * Zsum (frame_transition paintings <$> consecutive_pairs frames)
    ≤ Zsum ((λ frame,
               Z.of_nat (size (Check.compute_frameglass_tags frame paintings)))
            <$> frames).
Proof.
  destruct frames as [|a frames]; [done|].
  revert a; induction frames as [|b frames IH]; intros a.
  - cbn. lia.
  - rewrite consecutive_pairs_cons2, !fmap_cons.
    specialize (IH b). rewrite fmap_cons in IH.
    cbn [Zsum foldr] in *. unfold frame_transition at 1 3. cbn [fst snd].
    pose proof (transition_score_range
      (Check.compute_frameglass_tags a paintings)
      (Check.compute_frameglass_tags b paintings)).
    fold (Zsum (frame_transition paintings <$> consecutive_pairs (b :: frames)))
      in *.
    lia.
Qed.

(** X2. [compute_global_score] always returns a number; it is not
    negative, and twice the score is at most the total number of tags over
    the frames' tag sets. *)
Theorem global_score_bounds frames paintings :
  ∃ global_score,
    Check.compute_global_score frames paintings = Some global_score
    ∧ 0 ≤ global_score
    ∧ 2 * global_score
      ≤ Zsum ((λ frame,
                 Z.of_nat (size (Check.compute_frameglass_tags frame paintings)))
              <$> frames).
Proof.
  eexists. split; [apply compute_global_score_total|].
  apply pair_sum_range.
Qed.

Lemma pair_sum_snoc paintings frames (a : Frame) :
  Zsum (frame_transition paintings <$> consecutive_pairs (frames ++ [a]))
  = Zsum (frame_transition paintings <$> consecutive_pairs frames)
    + match last frames with
      | Some b => frame_transition paintings (b, a)
      | None => 0
      end.
Proof.
  destruct frames as [|b frames]; [done|].
  revert b; induction frames as [|c frames IH]; intros b.
  - cbn. lia.
  - change ((b :: c :: frames) ++ [a]) with (b :: (c :: frames) ++ [a]).
    change ((c :: frames) ++ [a]) with (c :: (frames ++ [a])) at 1.
    rewrite !consecutive_pairs_cons2, !fmap_cons. cbn [Zsum foldr].
    change (c :: (frames ++ [a])) with ((c :: frames) ++ [a]).
    fold (Zsum (frame_transition paintings
                  <$> consecutive_pairs ((c :: frames) ++ [a]))).
    rewrite IH.
    fold (Zsum (frame_transition paintings <$> consecutive_pairs (c :: frames))).
    change (last (b :: c :: frames)) with (last (c :: frames)). lia.
Qed.

Lemma pair_sum_reverse paintings frames :
  Zsum (frame_transition paintings <$> consecutive_pairs (reverse frames))
  = Zsum (frame_transition paintings <$> consecutive_pairs frames).
Proof.
  induction frames as [|a frames IH]; [done|].
  rewrite reverse_cons, pair_sum_snoc, IH, last_reverse.
  destruct frames as [|b frames]; [cbn; lia|].
  rewrite consecutive_pairs_cons2, fmap_cons. cbn [head Zsum foldr].
  fold (Zsum (frame_transition paintings <$> consecutive_pairs (b :: frames))).
  unfold frame_transition at 2 3. cbn [fst snd].
  rewrite (transition_score_comm (Check.compute_frameglass_tags b paintings)).
  lia.
Qed.

(** X3. The score does not depend on the direction in which the
    arrangement is read, nor on the order of the two paintings inside a
    frame: reversing the frame sequence leaves the global score unchanged,
    and a frame has the same tag set as the frame with its two identifiers
    swapped. *)
Theorem global_score_reverse frames paintings :
  Check.compute_global_score (reverse frames) paintings
    = Check.compute_global_score frames paintings
  ∧ (∀ id1 id2,
     Check.compute_frameglass_tags (id1, Some id2) paintings
       = Check.compute_frameglass_tags (id2, Some id1) paintings).
Proof.
  split.
  - by rewrite !compute_global_score_total, pair_sum_reverse.
  - intros id1 id2. unfold Check.compute_frameglass_tags.
    destruct (paintings !! id1), (paintings !! id2); try done.
    apply (comm_L union).
Qed.

Lemma frameglass_tags_same_sets paintings paintings' frame :
  (∀ k, (λ p, list_to_set (p_tags p) : gset string) <$> paintings !! k
        = (λ p, list_to_set (p_tags p) : gset string) <$> paintings' !! k) →
  Check.compute_frameglass_tags frame paintings
  = Check.compute_frameglass_tags frame paintings'.
Proof.
  intros Hsame. destruct frame as [id1 [id2|]]; unfold Check.compute_frameglass_tags.
  - pose proof (Hsame id1) as H1. pose proof (Hsame id2) as H2.
    destruct (paintings !! id1), (paintings' !! id1),
      (paintings !! id2), (paintings' !! id2); simplify_eq/=; try done.
    by rewrite H1, H2.
  - pose proof (Hsame id1) as H1.
    destruct (paintings !! id1), (paintings' !! id1); by simplify_eq/=.
Qed.

(** X4. The scorer reads the tags of a painting as a set: two painting
    mappings with the same identifiers and, for each identifier, the same
    set of tags (whatever the order and the repetitions in the tag lists,
    and whatever the orientations) give every frame the same tag set and
    every arrangement the same global score. *)
Theorem global_score_depends_on_tag_sets paintings paintings' :
  (∀ k, (λ p, list_to_set (p_tags p) : gset string) <$> paintings !! k
        = (λ p, list_to_set (p_tags p) : gset string) <$> paintings' !! k) →
  (∀ frame,
     Check.compute_frameglass_tags frame paintings
     = Check.compute_frameglass_tags frame paintings')
  ∧ (∀ frames,
     Check.compute_global_score frames paintings
     = Check.compute_global_score frames paintings').
Proof.
  intros Hsame. split.
  - intros frame. by apply frameglass_tags_same_sets.
  - intros frames. rewrite !compute_global_score_total. do 2 f_equal.
    apply list_fmap_ext. intros i [f g] _. unfold frame_transition. cbn.
    by rewrite !(frameglass_tags_same_sets paintings paintings').
Qed.

Lemma global_score_depends_on_tag_sets_witness :
  (∀ frame,
     Check.compute_frameglass_tags frame three_paintings
     = Check.compute_frameglass_tags frame three_paintings_shuffled)
  ∧ (∀ frames,
     Check.compute_global_score frames three_paintings
     = Check.compute_global_score frames three_paintings_shuffled).
Proof.
  apply (global_score_depends_on_tag_sets three_paintings
           three_paintings_shuffled).
  intros k.
  destruct (decide (k = 0)) as [->|]; [vm_compute; reflexivity|].
  destruct (decide (k = 1)) as [->|]; [vm_compute; reflexivity|].
  destruct (decide (k = 2)) as [->|]; [vm_compute; reflexivity|].
  unfold three_paintings, three_paintings_shuffled.
  by rewrite !lookup_insert_ne, !lookup_empty by done.
Defined.

End scorer_bounds.

(** ** Further properties of the arrangement parser *)

Section output_outcomes.
Implicit Types (content raw : string) (lines : list string).
Implicit Types (st : output_state) (seen : list Z) (frames : Frames).

Lemma same_frame_duplicate_Some (parts : list string) p :
  Check.same_frame_duplicate parts = Some p ↔ parts = [p; p].
Proof.
  destruct parts as [|p0 [|p1 [|??]]]; simpl; try (split; congruence).
  destruct (String.eqb_spec p0 p1) as [->|]; split; congruence.
Qed.

Lemma output_lines_app i lines1 lines2 st :
  Check.output_lines i (lines1 ++ lines2) st
  = match Check.output_lines i lines1 st with
    | inl e => inl e
    | inr st' => Check.output_lines (i + length lines1) lines2 st'
    end.
Proof.
  revert i st; induction lines1 as [|raw lines1 IH]; intros i st; simpl.
  - by rewrite Nat.add_0_r.
  - destruct (Check.output_line i raw st) as [e|st']; [done|].
    rewrite IH. by replace (S i + length lines1)%nat
                  with (i + S (length lines1))%nat by lia.
Qed.

(** An iteration that does not return appends the frame its line denotes,
    or the warning its line calls for, or nothing for a blank line. *)
Lemma output_line_result i raw st st' seen :
  tracks st seen →
  Check.output_line i raw st = inr st' →
  st_frames st' = st_frames st ++ option_list (line_frame raw)
  ∧ st_warnings st' = st_warnings st ++ option_list (line_warning i raw).
Proof.
  intros [Hused Hseen]. unfold Check.output_line, line_warning, line_frame.
  destruct (Py.is_empty (Py.strip raw)) eqn:Hblank.
  { intros [= <-]. rewrite (line_tokens_blank _ Hblank). simpl.
    by rewrite !app_nil_r. }
  fold (line_tokens raw).
  destruct (Check.same_frame_duplicate (line_tokens raw)); [done|].
  pose proof (register_parts_outcome (line_tokens raw) _ _ Hused Hseen) as H.
  destruct (Check.register_parts _ _) as [used'|used'|v]; [| |done].
  - destruct H as (_ & _ & Hall).
    pose proof (Forall2_length _ _ _ Hall) as Hlen.
    assert ((length (parsed_ids (line_tokens raw))
             <? length (line_tokens raw))%nat = false) as ->
      by (apply Nat.ltb_ge; lia).
    clear Hlen.
    destruct (line_tokens raw) as [|p0 [|p1 [|??]]]; simpl.
    + intros [= <-]. simpl. by rewrite app_nil_r.
    + inversion_clear Hall as [|???? H0 _].
      rewrite H0. intros [= <-]. simpl. by rewrite app_nil_r.
    + inversion_clear Hall as [|???? H0 Hall'].
      inversion_clear Hall' as [|???? H1 _].
      rewrite H0, H1. intros [= <-]. simpl. by rewrite app_nil_r.
    + intros [= <-]. simpl. by rewrite app_nil_r.
  - destruct H as (_ & _ & Hlen). intros [= <-]. simpl.
    assert (frame_of_tokens (line_tokens raw) = None) as ->.
    { destruct (line_tokens raw) as [|p0 [|p1 [|??]]]; simpl in *; try done.
      - destruct (Py.int p0); simpl in *; [lia|done].
      - destruct (Py.int p0); simpl in *; [|done].
        destruct (Py.int p1); simpl in *; [lia|done]. }
    apply Nat.ltb_lt in Hlen. rewrite Hlen. simpl. by rewrite app_nil_r.
Qed.

Lemma omap_cons_option_list {X Y} (f : X → option Y) x (l : list X) :
  omap f (x :: l) = option_list (f x) ++ omap f l.
Proof. simpl. by destruct (f x). Qed.

(** A run of the loop to its end: what it requires of the lines and what
    it leaves in the state. *)
Lemma output_lines_completed i lines st st' seen :
  tracks st seen →
  Check.output_lines i lines st = inr st' →
  Forall (λ l, Check.same_frame_duplicate (line_tokens l) = None) lines
  ∧ tracks st' (seen ++ ids_seen lines)
  ∧ st_frames st' = st_frames st ++ omap line_frame lines
  ∧ st_warnings st' = st_warnings st ++ lines_warnings i lines.
Proof.
  revert i st seen; induction lines as [|raw lines IH]; intros i st seen Hst.
  - intros [= <-]. cbn. by rewrite !app_nil_r.
  - cbn [Check.output_lines lines_warnings].
    destruct (Check.output_line i raw st) as [e|st1] eqn:Hline; [done|].
    intros Hloop.
    destruct (output_line_continue _ _ _ _ _ Hst Hline) as [Hsame Hst1].
    destruct (output_line_result _ _ _ _ _ Hst Hline) as [Hf1 Hw1].
    destruct (IH _ _ _ Hst1 Hloop) as (Hall & Hst' & Hf & Hw).
    rewrite ids_seen_cons, app_assoc, omap_cons_option_list.
    split_and!; [by constructor|done|..].
    + by rewrite Hf, Hf1, <- app_assoc.
    + by rewrite Hw, Hw1, <- app_assoc.
Qed.

Lemma output_lines_completes i lines st seen :
  tracks st seen →
  Forall (λ l, Check.same_frame_duplicate (line_tokens l) = None) lines →
  NoDup (seen ++ ids_seen lines) →
  ∃ st', Check.output_lines i lines st = inr st'.
Proof.
  revert i st seen; induction lines as [|raw lines IH];
    intros i st seen Hst Hall Hnd; [by eexists|].
  apply Forall_cons in Hall as [Hsame Hall].
  rewrite ids_seen_cons, app_assoc in Hnd.
  assert (NoDup (seen ++ parsed_ids (line_tokens raw))) as Hnd1
    by by apply NoDup_app in Hnd as (? & _).
  destruct (output_line_no_repeat i raw st seen Hst Hsame Hnd1) as [st1 Hline].
  simpl. rewrite Hline.
  apply (output_line_continue _ _ _ _ seen) in Hline as [_ Hst1]; [|done].
  by apply (IH _ _ _ Hst1).
Qed.

(** X5. When no duplicate stops it, the arrangement parser returns the
    frames denoted by the lines of one or two integer tokens, in order, and
    one warning for every other non-blank line. Precisely: the parse
    succeeds with [frames] and [warnings] exactly when the declared count
    is the number of frames, no line holds two textually equal tokens, no
    identifier is parsed twice in the file, [frames] are the frames the
    lines denote and [warnings] the warnings the lines call for; and it
    fails with the count error exactly under the same conditions on the
    lines, with a declared count other than the number of frames they
    denote. *)
Theorem output_parse_without_duplicates content :
  (∀ frames warnings,
     Check.read_and_verify_output content = (Some frames, warnings)
     ↔ declared_count content = Some (Z.of_nat (length frames))
       ∧ Forall (λ l, Check.same_frame_duplicate (line_tokens l) = None)
           (data_lines content)
       ∧ NoDup (ids_seen (data_lines content))
       ∧ frames = omap line_frame (data_lines content)
       ∧ warnings = lines_warnings 1 (data_lines content))
  ∧ (∀ declared found,
     Check.read_and_verify_output content
       = (None, [CountMismatchError declared found])
     ↔ declared_count content = Some declared
       ∧ Forall (λ l, Check.same_frame_duplicate (line_tokens l) = None)
           (data_lines content)
       ∧ NoDup (ids_seen (data_lines content))
       ∧ found = length (omap line_frame (data_lines content))
       ∧ declared ≠ Z.of_nat found).
Proof.
  split.
  - intros frames warnings. rewrite read_and_verify_output_unfold. split.
    + destruct (declared_count content) as [declared|]; [|done].
      destruct (Check.output_lines _ _ _) as [e|st] eqn:Hloop; [done|].
      apply (output_lines_completed _ _ _ _ []) in Hloop
        as (Hall & [_ Hnd] & Hf & Hw); [|apply tracks_initial].
      case_decide as Hdec; [done|]. intros [= <- <-].
      split_and!; [f_equal; lia|done..].
    + intros (Hcount & Hall & Hnd & -> & ->). rewrite Hcount.
      destruct (output_lines_completes 1 _ initial_output_state []
                  tracks_initial Hall Hnd) as [st Hloop].
      rewrite Hloop.
      apply (output_lines_completed _ _ _ _ []) in Hloop
        as (_ & _ & Hf & Hw); [|apply tracks_initial].
      simpl in Hf, Hw. rewrite Hf, Hw. by case_decide.
  - intros declared found. rewrite read_and_verify_output_unfold. split.
    + destruct (declared_count content) as [declared'|]; [|done].
      destruct (Check.output_lines _ _ _) as [e|st] eqn:Hloop.
      { intros [= ->]. apply output_lines_error in Hloop.
        destruct Hloop as (k & [[p [=]] | [v [=]]]). }
      apply (output_lines_completed _ _ _ _ []) in Hloop
        as (Hall & [_ Hnd] & Hf & Hw); [|apply tracks_initial].
      simpl in Hf. rewrite Hf.
      case_decide as Hdec; [|done]. intros [= <- <-]. done.
    + intros (Hcount & Hall & Hnd & -> & Hne). rewrite Hcount.
      destruct (output_lines_completes 1 _ initial_output_state []
                  tracks_initial Hall Hnd) as [st Hloop].
      rewrite Hloop.
      apply (output_lines_completed _ _ _ _ []) in Hloop
        as (_ & _ & Hf & Hw); [|apply tracks_initial].
      simpl in Hf. rewrite Hf. by case_decide.
Qed.

Lemma output_line_same_frame i raw st ln p :
  Check.output_line i raw st = inl (DuplicateInSameFrameError ln p)
  ↔ ln = (i + 1)%nat ∧ line_tokens raw = [p; p].
Proof.
  unfold Check.output_line.
  destruct (Py.is_empty (Py.strip raw)) eqn:Hblank.
  { rewrite (line_tokens_blank _ Hblank). split; [done|by intros [_ ?]]. }
  fold (line_tokens raw). rewrite <- same_frame_duplicate_Some.
  destruct (Check.same_frame_duplicate (line_tokens raw)) as [p0|].
  - split; [by intros [= <- <-]|by intros [-> [= ->]]].
  - split; [|by intros [_ ?]].
    intros H. repeat (case_match; simplify_eq).
Qed.

Lemma output_lines_same_frame i lines st seen ln p :
  tracks st seen →
  Check.output_lines i lines st = inl (DuplicateInSameFrameError ln p) →
  ∃ before raw after,
    lines = before ++ raw :: after
    ∧ ln = (i + length before + 1)%nat
    ∧ Forall (λ l, Check.same_frame_duplicate (line_tokens l) = None) before
    ∧ NoDup (seen ++ ids_seen before)
    ∧ line_tokens raw = [p; p].
Proof.
  revert i st seen. induction lines as [|raw0 lines IH]; intros i st seen Hst;
    [done|].
  cbn [Check.output_lines].
  destruct (Check.output_line i raw0 st) as [e|st'] eqn:Hline.
  - intros [= ->]. apply output_line_same_frame in Hline as [-> Htok].
    exists [], raw0, lines. cbn. rewrite app_nil_r, Nat.add_0_r.
    destruct Hst as [_ Hseen]. split_and!; [done..|constructor|done|done].
  - pose proof (output_line_continue _ _ _ _ _ Hst Hline) as [Hsame Hst'].
    intros Hloop.
    destruct (IH _ _ _ Hst' Hloop)
      as (before & raw & after & -> & -> & Hall & Hnd & Htok).
    exists (raw0 :: before), raw, after.
    rewrite ids_seen_cons, app_assoc.
    split_and!; [done|simpl; lia|by constructor|done|done].
Qed.

(** X6. [read_and_verify_output] fails with the same-frame duplicate
    error for line [ln] and token [p] exactly when the first line is an
    integer, line [ln] consists of the token [p] twice, and the lines
    before it raise no duplicate error (none holds two equal tokens, and no
    identifier is parsed twice on them). The two tokens are compared as
    text, before [int] reads them: they need not be integers. *)
Theorem duplicate_in_same_frame_iff content ln p :
  Check.read_and_verify_output content
    = (None, [DuplicateInSameFrameError ln p])
  ↔ ∃ before raw after,
      is_Some (declared_count content)
      ∧ data_lines content = before ++ raw :: after
      ∧ ln = (length before + 2)%nat
      ∧ Forall (λ l, Check.same_frame_duplicate (line_tokens l) = None) before
      ∧ NoDup (ids_seen before)
      ∧ line_tokens raw = [p; p].
Proof.
  rewrite read_and_verify_output_unfold. split.
  - destruct (declared_count content) as [declared|]; [|done].
    destruct (Check.output_lines _ _ _) as [e|st] eqn:Hloop;
      [|by case_decide].
    intros [= ->].
    apply (output_lines_same_frame _ _ _ []) in Hloop
      as (before & raw & after & Hlines & -> & Hall & Hnd & Htok);
      [|apply tracks_initial].
    exists before, raw, after. split_and!; [done|done|lia|done..].
  - intros (before & raw & after & [declared Hcount] & Hlines & -> & Hall
            & Hnd & Htok).
    rewrite Hcount, Hlines, output_lines_app.
    destruct (output_lines_completes 1 before initial_output_state []
                tracks_initial Hall Hnd) as [st Hloop].
    rewrite Hloop. cbn [Check.output_lines].
    rewrite (proj2 (output_line_same_frame _ raw st _ p) (conj eq_refl Htok)).
    by replace (1 + length before + 1)%nat with (length before + 2)%nat by lia.
Qed.

(** The identifiers of the frames the lines denote are among the
    identifiers parsed, in the same order. *)
Lemma frame_ids_sublist lines :
  (omap line_frame lines ≫= frame_ids) `sublist_of` ids_seen lines.
Proof.
  induction lines as [|raw lines IH]; [done|].
  rewrite ids_seen_cons. cbn [omap list_omap]. unfold line_frame at 1.
  destruct (frame_of_tokens (line_tokens raw)) as [frame|] eqn:Hframe.
  - change ((frame :: omap line_frame lines) ≫= frame_ids)
      with (frame_ids frame ++ (omap line_frame lines ≫= frame_ids)).
    rewrite (frame_of_tokens_ids _ _ Hframe). by apply sublist_app.
  - by apply sublist_inserts_l.
Qed.

Lemma line_accounting i raw :
  (length (option_list (line_frame raw))
   + length (option_list (line_warning i raw)))%nat
  = if Py.is_empty (Py.strip raw) then 0%nat else 1%nat.
Proof.
  unfold line_warning, line_frame.
  destruct (Py.is_empty (Py.strip raw)) eqn:Hblank.
  - by rewrite (line_tokens_blank _ Hblank).
  - destruct (frame_of_tokens _); [done|]. by case_match.
Qed.

Lemma lines_accounting i lines :
  (length (omap line_frame lines) + length (lines_warnings i lines))%nat
  = length (non_blank lines).
Proof.
  revert i; induction lines as [|raw lines IH]; intros i; [done|].
  rewrite omap_cons_option_list. cbn [lines_warnings].
  rewrite !length_app. unfold non_blank. rewrite filter_cons.
  pose proof (line_accounting i raw) as Hraw. specialize (IH (S i)).
  unfold non_blank in IH.
  destruct (Py.is_empty (Py.strip raw)); case_decide; try done;
    cbn [length]; lia.
Qed.

Lemma lines_warnings_are_warnings i lines :
  Forall is_output_warning (lines_warnings i lines).
Proof.
  revert i; induction lines as [|raw lines IH]; intros i; [constructor|].
  cbn [lines_warnings]. apply Forall_app. split; [|apply IH].
  unfold line_warning. repeat case_match; repeat constructor.
Qed.

(** X7. What a successful parse of an output file guarantees: no
    identifier occurs twice in the frames (neither inside a frame nor
    across frames); every non-blank line after the first yielded exactly
    one frame or one warning; and the messages returned are all
    warnings. *)
Theorem output_success_invariants content frames warnings :
  Check.read_and_verify_output content = (Some frames, warnings) →
  NoDup (frames ≫= frame_ids)
  ∧ (∀ id0 id1, (id0, Some id1) ∈ frames → id0 ≠ id1)
  ∧ (length frames + length warnings)%nat
    = length (non_blank (data_lines content))
  ∧ Forall is_output_warning warnings.
Proof.
  rewrite read_and_verify_output_unfold.
  destruct (declared_count content) as [declared|]; [|done].
  destruct (Check.output_lines _ _ _) as [e|st] eqn:Hloop; [done|].
  apply (output_lines_completed _ _ _ _ []) in Hloop
    as (Hall & [_ Hnd] & Hf & Hw); [|apply tracks_initial].
  case_decide; [done|]. intros [= <- <-]. simpl in Hf, Hw, Hnd.
  rewrite Hf, Hw.
  pose proof (frame_ids_sublist (data_lines content)) as Hids.
  apply sublist_NoDup in Hids; [|done].
  split_and!; [done| |apply lines_accounting|apply lines_warnings_are_warnings].
  intros id0 id1 Hin ->.
  apply list_elem_of_split in Hin as (l1 & l2 & Heq). rewrite Heq in Hids.
  rewrite bind_app, bind_cons in Hids. cbn [frame_ids] in Hids.
  apply NoDup_app in Hids as (_ & _ & Hids).
  apply NoDup_cons in Hids as [Hids _]. apply Hids. left.
Qed.

Lemma output_success_invariants_witness :
  NoDup (three_frames ≫= frame_ids)
  ∧ (∀ id0 id1, (id0, Some id1) ∈ three_frames → id0 ≠ id1)
  ∧ (length three_frames
     + length [InvalidPartsWarning 4; InvalidLineWarning 6 "8 x"])%nat
    = length (non_blank (data_lines noisy_frames_text))
  ∧ Forall is_output_warning
      [InvalidPartsWarning 4; InvalidLineWarning 6 "8 x"].
Proof.
  apply (output_success_invariants noisy_frames_text).
  vm_compute. reflexivity.
Defined.

(** X8. A failed parse of an output file returns exactly one message, a
    hard error: the warnings collected before it are dropped. The error
    for an empty file is never among them: a text that is empty or all
    white space fails, in both parsers, with the first-line format error. *)
Theorem output_failure_single_error content :
  (∀ messages,
     Check.read_and_verify_output content = (None, messages) →
     ∃ e, messages = [e] ∧ is_output_error e)
  ∧ (Py.strip content = ""%string →
     Check.read_and_verify_output content = (None, [OutputFormatError])
     ∧ Check.read_input_file content = (None, [InputFormatError])).
Proof.
  split.
  - intros messages. rewrite read_and_verify_output_unfold.
    destruct (declared_count content) as [declared|].
    + destruct (Check.output_lines _ _ _) as [e|st] eqn:Hloop.
      * intros [= <-]. exists e. split; [done|].
        apply output_lines_error in Hloop.
        by destruct Hloop as (k & [[p ->] | [v ->]]).
      * case_decide; [|done]. intros [= <-]. by eexists.
    + intros [= <-]. by eexists.
  - intros Hblank.
    rewrite read_and_verify_output_unfold, read_input_file_unfold.
    unfold declared_count, lines_of. rewrite Hblank. done.
Qed.

Lemma output_failure_single_error_witness :
  Check.read_and_verify_output (" " +:+ nl +:+ "  ")
    = (None, [OutputFormatError])
  ∧ Check.read_input_file (" " +:+ nl +:+ "  ") = (None, [InputFormatError]).
Proof.
  apply (output_failure_single_error (" " +:+ nl +:+ "  ")). reflexivity.
Defined.

End output_outcomes.

(** ** Further properties of the record parser *)

Section input_outcomes.
Implicit Types (content raw : string) (lines : list string).
Implicit Types (paintings : gmap Z Painting) (warnings : list message).

(** The loop of [read_input_file]: its warnings, the number of entries it
    adds, and the range of their keys. *)
Lemma input_lines_result i lines paintings warnings :
  (∀ k, is_Some (paintings !! k) → k < Z.of_nat i - 1) →
  (Check.input_lines i lines paintings warnings).2
    = warnings ++ input_warnings i lines
  ∧ size (Check.input_lines i lines paintings warnings).1
    = (size paintings + length (input_parsed i lines))%nat
  ∧ (∀ k, is_Some ((Check.input_lines i lines paintings warnings).1 !! k) →
       k < Z.of_nat (i + length lines) - 1).
Proof.
  revert i paintings warnings.
  induction lines as [|raw lines IH]; intros i paintings warnings Hkeys.
  - cbn. rewrite app_nil_r, !Nat.add_0_r. done.
  - cbn [Check.input_lines input_warnings input_parsed length].
    replace (i + S (length lines))%nat with (S i + length lines)%nat by lia.
    destruct (Check.input_line i raw) as [|w|p] eqn:Hline.
    + apply IH. intros k Hk. specialize (Hkeys k Hk). lia.
    + destruct (IH (S i) paintings (warnings ++ [w])) as (Hw & Hs & Hk).
      { intros k Hk. specialize (Hkeys k Hk). lia. }
      rewrite <- app_assoc in Hw. done.
    + pose proof (input_line_parsed_id _ _ _ Hline) as Hid.
      destruct (IH (S i) (<[p_id p := p]> paintings) warnings)
        as (Hw & Hs & Hk).
      { intros k. rewrite Hid, lookup_insert_is_Some.
        intros [<-|[_ Hk]]; [lia|]. specialize (Hkeys k Hk). lia. }
      split_and!; [done| |done].
      rewrite Hs, map_size_insert_None; [cbn [length]; lia|].
      rewrite Hid. apply eq_None_not_Some. intros Hk'.
      specialize (Hkeys _ Hk'). lia.
Qed.

Lemma input_parsed_length i lines :
  (length (input_parsed i lines) ≤ length lines)%nat
  ∧ (length (input_parsed i lines) = length lines
     ↔ ∀ j raw, lines !! j = Some raw →
         ∃ p, Check.input_line (i + j) raw = LineParsed p)
  ∧ (length (input_parsed i lines) = length lines →
     input_warnings i lines = []).
Proof.
  revert i; induction lines as [|raw lines IH]; intros i.
  - cbn. split_and!; [lia| |done]. split; [by intros _ j raw|done].
  - destruct (IH (S i)) as (Hle & Hiff & Hnone).
    cbn [input_parsed input_warnings length].
    assert ((∀ j raw', lines !! j = Some raw' →
               ∃ p, Check.input_line (S i + j) raw' = LineParsed p)
            ↔ (∀ j raw', (raw :: lines) !! S j = Some raw' →
                 ∃ p, Check.input_line (i + S j) raw' = LineParsed p)) as Hshift.
    { split; intros H j raw' Hj.
      - replace (i + S j)%nat with (S i + j)%nat by lia. by apply H.
      - replace (S i + j)%nat with (i + S j)%nat by lia. by apply H. }
    destruct (Check.input_line i raw) as [|w|p] eqn:Hline.
    + split_and!; [lia| |lia]. split; [lia|].
      intros H. destruct (H 0%nat raw eq_refl) as [p Hp].
      rewrite Nat.add_0_r in Hp. congruence.
    + split_and!; [lia| |lia]. split; [lia|].
      intros H. destruct (H 0%nat raw eq_refl) as [p Hp].
      rewrite Nat.add_0_r in Hp. congruence.
    + cbn [length]. split_and!; [lia| |intros; apply Hnone; lia].
      split.
      * intros Hlen [|j] raw' Hj.
        -- simplify_eq/=. rewrite Nat.add_0_r. eauto.
        -- apply Hshift; [|done]. apply Hiff. lia.
      * intros H. f_equal. apply Hiff, Hshift. intros j raw' Hj.
        by apply H.
Qed.

Lemma input_warnings_kinds i lines a b :
  InputCountWarning a b ∉ input_warnings i lines.
Proof.
  revert i; induction lines as [|raw lines IH]; intros i; cbn.
  - apply not_elem_of_nil.
  - destruct (Check.input_line i raw) as [|w|p] eqn:Hline; try apply IH.
    rewrite not_elem_of_cons. split; [|apply IH].
    unfold Check.input_line in Hline.
    repeat (case_match; simplify_eq); done.
Qed.

(** X9. [read_input_file] with an integer [n] on the first line: the
    keys of the mapping lie between 0 and [n - 1] and below the number of
    data lines, so the mapping never has more than [n] entries; the count
    warning is among the warnings exactly when the number of entries
    differs from [n]; and the parse returns no warning at all exactly when
    [n] is not negative and each of the first [n] data lines exists and
    yields a painting, in which case the mapping has exactly the keys
    0 to [n - 1]. *)
Theorem input_count_and_warnings content n paintings warnings :
  declared_count content = Some n →
  Check.read_input_file content = (Some paintings, warnings) →
  (∀ k, is_Some (paintings !! k) →
     0 ≤ k < n ∧ k < Z.of_nat (length (data_lines content)))
  ∧ Z.of_nat (size paintings) ≤ Z.max 0 n
  ∧ (InputCountWarning n (size paintings) ∈ warnings
     ↔ Z.of_nat (size paintings) ≠ n)
  ∧ (warnings = [] ↔ Z.of_nat (size paintings) = n)
  ∧ (Z.of_nat (size paintings) = n
     ↔ 0 ≤ n
       ∧ ∀ j, Z.of_nat j < n →
           ∃ raw p, data_lines content !! j = Some raw
                    ∧ Check.input_line (S j) raw = LineParsed p).
Proof.
  intros Hcount. rewrite read_input_file_unfold, Hcount. cbv zeta.
  set (visited := take (Z.to_nat n) (data_lines content)).
  destruct (input_lines_result 1 visited ∅ []) as (Hw & Hs & Hrange).
  { intros k. rewrite lookup_empty. by intros [??]. }
  destruct (input_parsed_length 1 visited) as (Hle & Hall & Hnone).
  assert (length visited ≤ Z.to_nat n)%nat as Hvis1
    by (unfold visited; rewrite length_take; lia).
  assert (length visited ≤ length (data_lines content))%nat as Hvis2
    by (unfold visited; rewrite length_take; lia).
  rewrite map_size_empty in Hs. cbn [app] in Hw.
  intros [= <- <-].
  set (result := Check.input_lines 1 visited ∅ []) in *.
  assert (∀ k, is_Some (result.1 !! k) → 0 ≤ k) as Hlow.
  { intros k [p Hp]. unfold result in Hp.
    apply input_lines_origin in Hp as [Hp|(j & raw & _ & _ & ->)]; [done|lia]. }
  assert (Z.of_nat (size result.1) = n
          ↔ 0 ≤ n
            ∧ ∀ j, Z.of_nat j < n →
                ∃ raw p, data_lines content !! j = Some raw
                         ∧ Check.input_line (S j) raw = LineParsed p) as Hsize.
  { rewrite Hs. cbn [Nat.add]. split.
    - intros Hn. split; [lia|]. intros j Hj.
      assert (length (input_parsed 1 visited) = length visited) as Hfull
        by lia.
      destruct (lookup_lt_is_Some_2 visited j) as [raw Hraw]; [lia|].
      destruct (proj1 Hall Hfull j raw Hraw) as [p Hp].
      exists raw, p. split; [|done].
      unfold visited in Hraw. by apply lookup_take_Some in Hraw as [? _].
    - intros [Hn Hlines].
      assert (length visited = Z.to_nat n) as Hlen.
      { unfold visited. rewrite length_take.
        destruct (decide (Z.to_nat n ≤ length (data_lines content))%nat);
          [lia|].
        destruct (Hlines (length (data_lines content))) as (raw & _ & Hraw & _);
          [lia|].
        apply lookup_lt_Some in Hraw. lia. }
      enough (length (input_parsed 1 visited) = length visited) by lia.
      apply Hall. intros j raw Hraw.
      unfold visited in Hraw. apply lookup_take_Some in Hraw as [Hraw Hj].
      destruct (Hlines j) as (raw' & p & Hraw' & Hp); [lia|].
      simplify_eq. eauto. }
  split_and!.
  - intros k Hk. specialize (Hlow k Hk). specialize (Hrange k Hk). lia.
  - rewrite Hs. lia.
  - case_decide as Hdec.
    + split; [done|]. intros _. apply elem_of_app. right. left.
    + split; [|done]. rewrite Hw. intros Hin.
      by apply input_warnings_kinds in Hin.
  - case_decide as Hdec.
    + split; [by intros [_ [=]]%app_eq_nil|done].
    + split; [lia|]. intros Hn. rewrite Hw. apply Hnone. lia.
  - exact Hsize.
Qed.

Lemma input_count_and_warnings_witness :
  (∀ k, is_Some (gap_paintings !! k) →
     0 ≤ k < 2 ∧ k < Z.of_nat (length (data_lines gap_input_text)))
  ∧ Z.of_nat (size gap_paintings) ≤ Z.max 0 2
  ∧ (InputCountWarning 2 (size gap_paintings)
       ∈ [InvalidOrientationWarning "X" 2; InputCountWarning 2 1]
     ↔ Z.of_nat (size gap_paintings) ≠ 2)
  ∧ ([InvalidOrientationWarning "X" 2; InputCountWarning 2 1] = []
     ↔ Z.of_nat (size gap_paintings) = 2)
  ∧ (Z.of_nat (size gap_paintings) = 2
     ↔ 0 ≤ 2
       ∧ ∀ j, Z.of_nat j < 2 →
           ∃ raw p, data_lines gap_input_text !! j = Some raw
                    ∧ Check.input_line (S j) raw = LineParsed p).
Proof.
  apply (input_count_and_warnings gap_input_text 2 gap_paintings).
  - reflexivity.
  - vm_compute. reflexivity.
Defined.

(** Where an entry of the mapping comes from. *)
Lemma read_input_file_origin content paintings warnings k p :
  Check.read_input_file content = (Some paintings, warnings) →
  paintings !! k = Some p →
  ∃ j raw, k = Z.of_nat j ∧ data_lines content !! j = Some raw
           ∧ Check.input_line (S j) raw = LineParsed p.
Proof.
  rewrite read_input_file_unfold.
  destruct (declared_count content) as [n|]; [|done].
  cbv zeta. intros [= <- _] Hk.
  apply input_lines_origin in Hk as [Hk|(j & raw & Hj & Hline & ->)]; [done|].
  exists j, raw. split_and!; [lia| |done].
  by apply lookup_take_Some in Hj as [? _].
Qed.

Lemma slice_from_2 {X} (x0 x1 : X) (rest : list X) (n : Z) :
  n ≤ Z.of_nat (length rest) →
  Py.slice (x0 :: x1 :: rest) 2 (2 + n)
  = if decide (0 ≤ n) then take (Z.to_nat n) rest
    else if decide (-2 ≤ n) then []
    else take (Z.to_nat (Z.of_nat (length rest) + 2 + n)) rest.
Proof.
  intros Hn. unfold Py.slice, Py.slice_index. cbn [length].
  assert ((2 <? 0) = false) as -> by done.
  rewrite (Z.min_l 2) by lia.
  change (drop (Z.to_nat 2) (x0 :: x1 :: rest)) with rest.
  repeat case_decide.
  - assert ((2 + n <? 0) = false) as -> by lia.
    rewrite Z.min_l by lia. f_equal. lia.
  - assert ((2 + n <? 0) = false) as -> by lia.
    rewrite Z.min_l by lia.
    by replace (Z.to_nat (2 + n) - Z.to_nat 2)%nat with 0%nat by lia.
  - assert ((2 + n <? 0) = true) as -> by lia. f_equal. lia.
Qed.

(** X10. What [read_input_file] stores for a painting. The entry under
    key [k] comes from data line [k], of tokens [orientation], a tag count
    and the other tokens [rest]: the orientation is ["L"] or ["P"], the
    tag count is an integer not above the number of tokens in [rest], and
    the tags are the first [num_tags] tokens of [rest] when [num_tags] is
    not negative. A negative tag count is accepted too: the painting then
    has no tag for -1 and -2, and all the tokens of [rest] but the last
    [-num_tags - 2] below that. *)
Theorem stored_painting_fields content paintings warnings k p :
  Check.read_input_file content = (Some paintings, warnings) →
  paintings !! k = Some p →
  ∃ raw part1 rest num_tags,
    data_lines content !! Z.to_nat k = Some raw
    ∧ 0 ≤ k
    ∧ line_tokens raw = p_orientation p :: part1 :: rest
    ∧ (p_orientation p = "L" ∨ p_orientation p = "P")%string
    ∧ Py.int part1 = Some num_tags
    ∧ num_tags ≤ Z.of_nat (length rest)
    ∧ (0 ≤ num_tags → p_tags p = take (Z.to_nat num_tags) rest)
    ∧ (-2 ≤ num_tags < 0 → p_tags p = [])
    ∧ (num_tags < -2 →
       p_tags p
       = take (Z.to_nat (Z.of_nat (length rest) + 2 + num_tags)) rest).
Proof.
  intros Hread Hk.
  destruct (read_input_file_origin _ _ _ _ _ Hread Hk)
    as (j & raw & -> & Hraw & Hline).
  rewrite Nat2Z.id. exists raw.
  unfold Check.input_line in Hline.
  destruct (Py.is_empty (Py.strip raw)); [done|].
  fold (line_tokens raw) in Hline.
  destruct (line_tokens raw) as [|orientation [|part1 rest]]; [done..|].
  case_bool_decide as Horient; [|done].
  destruct (Py.int part1) as [num_tags|] eqn:Hint; [|done].
  destruct (Z.of_nat (length (orientation :: part1 :: rest)) <? 2 + num_tags)
    eqn:Hlen; [done|].
  apply Z.ltb_ge in Hlen. cbn [length] in Hlen.
  injection Hline as <-. cbn [p_orientation p_tags].
  exists part1, rest, num_tags.
  assert (num_tags ≤ Z.of_nat (length rest)) as Hn by lia.
  rewrite (slice_from_2 _ _ _ _ Hn).
  split_and!; [done|lia|done| |done|done|..].
  - apply elem_of_cons in Horient as [->|Horient]; [by left|].
    apply elem_of_cons in Horient as [->|Horient]; [by right|].
    by apply elem_of_nil in Horient.
  - intros ?. by rewrite decide_True.
  - intros ?. rewrite decide_False by lia. by rewrite decide_True by lia.
  - intros ?. rewrite decide_False by lia. by rewrite decide_False by lia.
Qed.

Lemma stored_painting_fields_witness :
  ∃ raw part1 rest num_tags,
    data_lines negative_tags_text !! Z.to_nat 1 = Some raw
    ∧ 0 ≤ 1
    ∧ line_tokens raw = p_orientation (mkPainting 1 "L" ["a"; "b"])
                          :: part1 :: rest
    ∧ (p_orientation (mkPainting 1 "L" ["a"; "b"]) = "L"
       ∨ p_orientation (mkPainting 1 "L" ["a"; "b"]) = "P")%string
    ∧ Py.int part1 = Some num_tags
    ∧ num_tags ≤ Z.of_nat (length rest)
    ∧ (0 ≤ num_tags →
       p_tags (mkPainting 1 "L" ["a"; "b"]) = take (Z.to_nat num_tags) rest)
    ∧ (-2 ≤ num_tags < 0 → p_tags (mkPainting 1 "L" ["a"; "b"]) = [])
    ∧ (num_tags < -2 →
       p_tags (mkPainting 1 "L" ["a"; "b"])
       = take (Z.to_nat (Z.of_nat (length rest) + 2 + num_tags)) rest).
Proof.
  apply (stored_painting_fields negative_tags_text negative_tags_paintings
           [] 1 (mkPainting 1 "L" ["a"; "b"])).
  - vm_compute. reflexivity.
  - reflexivity.
Defined.

(** X11. [read_input_file] reads the first line and the [n] lines after
    it, and nothing else: two texts with the same count [n] that agree on
    their first [n] data lines give the same result, whatever follows. *)
Theorem input_ignores_further_lines content content' n :
  declared_count content = Some n →
  declared_count content' = Some n →
  take (Z.to_nat n) (data_lines content)
    = take (Z.to_nat n) (data_lines content') →
  Check.read_input_file content = Check.read_input_file content'.
Proof.
  intros Hcount Hcount' Hsame.
  by rewrite !read_input_file_unfold, Hcount, Hcount', Hsame.
Qed.

Lemma input_ignores_further_lines_witness :
  Check.read_input_file two_paintings_text
  = Check.read_input_file (two_paintings_text +:+ "Q x y" +:+ nl +:+ "5").
Proof.
  apply (input_ignores_further_lines _ _ 2); reflexivity.
Defined.

End input_outcomes.

(** ** Further properties of [check_files] and of the tokens *)

Section orchestration.
Implicit Types (input_content output_content raw : string).
Implicit Types (frames : Frames) (paintings : gmap Z Painting).

(** X12. The response of [check_files], case by case. It is never the
    "Could not compute score." failure. A validation failure is either the
    output-stage one, carrying the one error of the output parser, or the
    input-stage one, which only arises when the output parse succeeded and
    the first line of the input text is no integer. A success reports the
    count declared on the first line of the output text as its number of
    frames, the size of the mapping as its number of paintings, a score
    that is not negative, and the output warnings followed by the input
    warnings. *)
Theorem check_files_outcomes input_content output_content :
  match Check.check_files input_content output_content with
  | ScoreFailure => False
  | ValidationFailure error messages =>
      (error = "Output file validation failed."%string
       ∧ Check.read_and_verify_output output_content = (None, messages)
       ∧ ∃ e, messages = [e] ∧ is_output_error e)
      ∨ (error = "Input file validation failed."%string
         ∧ messages = [InputFormatError]
         ∧ declared_count input_content = None
         ∧ ∃ frames output_warnings,
             Check.read_and_verify_output output_content
               = (Some frames, output_warnings))
  | Success num_frames num_paintings global_score all_warnings =>
      declared_count output_content = Some (Z.of_nat num_frames)
      ∧ is_Some (declared_count input_content)
      ∧ 0 ≤ global_score
      ∧ ∃ frames paintings output_warnings input_warnings,
          Check.read_and_verify_output output_content
            = (Some frames, output_warnings)
          ∧ Check.read_input_file input_content
              = (Some paintings, input_warnings)
          ∧ num_frames = length frames
          ∧ num_paintings = size paintings
          ∧ Check.compute_global_score frames paintings = Some global_score
          ∧ all_warnings = output_warnings ++ input_warnings
  end.
Proof.
  unfold Check.check_files.
  destruct (Check.read_and_verify_output output_content)
    as [[frames|] output_warnings] eqn:Hout.
  - assert (declared_count output_content = Some (Z.of_nat (length frames)))
      as Hdeclared.
    { revert Hout. rewrite read_and_verify_output_unfold.
      destruct (declared_count output_content) as [declared|]; [|done].
      destruct (Check.output_lines _ _ _) as [e|st]; [done|].
      case_decide; [done|]. intros [= <- _]. f_equal. lia. }
    rewrite read_input_file_unfold.
    destruct (declared_count input_content) as [n|] eqn:Hin;
      cbv beta iota zeta.
    + rewrite compute_global_score_total.
      split_and!; [done|by eexists|apply pair_sum_range|].
      eexists _, _, _, _. split_and!; try done.
      apply compute_global_score_total.
    + right. split_and!; try done. eauto.
  - left. split_and!; [done..|].
    revert Hout. rewrite read_and_verify_output_unfold.
    destruct (declared_count output_content) as [declared|].
    + destruct (Check.output_lines _ _ _) as [e|st] eqn:Hloop.
      * intros [= <-]. exists e. split; [done|].
        apply output_lines_error in Hloop.
        by destruct Hloop as (k & [[p ->] | [v ->]]).
      * case_decide; [|done]. intros [= <-]. by eexists.
    + intros [= <-]. by eexists.
Qed.

Lemma empty_mapping_scores_zero frames :
  Check.compute_global_score frames ∅ = Some 0.
Proof.
  rewrite compute_global_score_total. f_equal.
  destruct frames as [|a frames]; [done|].
  revert a; induction frames as [|b frames IH]; intros a; [done|].
  rewrite consecutive_pairs_cons2, fmap_cons. cbn [Zsum foldr].
  fold (Zsum (frame_transition ∅ <$> consecutive_pairs (b :: frames))).
  rewrite IH.
  unfold frame_transition, Check.compute_frameglass_tags. cbn [fst snd].
  destruct a as [a1 [a2|]], b as [b1 [b2|]]; rewrite !lookup_empty; done.
Qed.

(** X13. With an input text whose first line is an integer below 1, the
    mapping is empty, so every frame resolves to the empty tag set: an
    output text that parses gives a success with 0 paintings and score 0,
    with the count warning added after the output warnings when the count
    is negative. *)
Theorem no_paintings_scores_zero input_content output_content n frames
    output_warnings :
  declared_count input_content = Some n → n ≤ 0 →
  Check.read_and_verify_output output_content
    = (Some frames, output_warnings) →
  Check.check_files input_content output_content
  = Success (length frames) 0 0
      (output_warnings
       ++ if decide (n < 0) then [InputCountWarning n 0] else []).
Proof.
  intros Hin Hn Hout. unfold Check.check_files.
  rewrite Hout, read_input_file_unfold, Hin.
  replace (Z.to_nat n) with 0%nat by lia.
  rewrite take_0. cbn [Check.input_lines fst snd app].
  rewrite empty_mapping_scores_zero.
  change (size (∅ : gmap Z Painting)) with 0%nat.
  repeat case_decide; try lia; done.
Qed.

Lemma no_paintings_scores_zero_witness :
  Check.check_files "-3" three_frames_text
  = Success (length three_frames) 0 0
      ([] ++ if decide (-3 < 0) then [InputCountWarning (-3) 0] else []).
Proof.
  apply (no_paintings_scores_zero "-3" three_frames_text (-3) three_frames []).
  - reflexivity.
  - lia.
  - vm_compute. reflexivity.
Defined.

Lemma lstrip_head s c r : Py.lstrip s = String c r → Py.isspace c = false.
Proof.
  induction s as [|a s IH]; [done|]. cbn [Py.lstrip].
  destruct (Py.isspace a) eqn:Ha; [done|]. by intros [= <- _].
Qed.

Lemma rstrip_head s c r : Py.rstrip s = String c r → ∃ s', s = String c s'.
Proof.
  destruct s as [|a s]; [done|]. cbn [Py.rstrip].
  destruct (Py.is_empty (Py.rstrip s) && Py.isspace a); [done|].
  intros [= <- _]. eauto.
Qed.

Lemma split_head c s : Py.isspace c = false → Py.split (String c s) ≠ [].
Proof.
  intros Hc.
  change (Py.split (String c s))
    with (if Py.isspace c then Py.split s
          else match s with
               | EmptyString => [String c EmptyString]
               | String c' _ =>
                   if Py.isspace c' then String c EmptyString :: Py.split s
                   else match Py.split s with
                        | t :: ts => String c t :: ts
                        | [] => [String c EmptyString]
                        end
               end).
  rewrite Hc. destruct s as [|c' s]; [done|].
  destruct (Py.isspace c'); [done|]. by destruct (Py.split (String c' s)).
Qed.

Lemma blank_iff_no_tokens raw :
  Py.is_empty (Py.strip raw) = true ↔ line_tokens raw = [].
Proof.
  split; [apply line_tokens_blank|].
  unfold line_tokens. destruct (Py.strip raw) as [|c r] eqn:Hstrip; [done|].
  intros Htok. exfalso. revert Htok. apply split_head.
  unfold Py.strip in Hstrip. apply rstrip_head in Hstrip as [s' Hs'].
  by apply lstrip_head in Hs'.
Qed.

(** X14. A line is skipped as blank exactly when it has no token. Hence,
    when the arrangement parser leaves the invalid-parts warning for a
    line, the line has three or more tokens, all of them integers (a line
    with a token that is no integer gets the invalid-line warning
    instead); and the record parser's invalid-line warning means that the
    line has exactly one token, while it treats a line as blank, without a
    warning, exactly when the line has none. *)
Theorem blank_lines_and_token_counts raw i :
  (Py.is_empty (Py.strip raw) = true ↔ line_tokens raw = [])
  ∧ (∀ ln, line_warning i raw = Some (InvalidPartsWarning ln)
           ↔ ln = (i + 1)%nat
             ∧ (3 ≤ length (line_tokens raw))%nat
             ∧ Forall (λ part, is_Some (Py.int part)) (line_tokens raw))
  ∧ (∀ ln, Check.input_line i raw = LineWarning (InputInvalidLineWarning ln)
           ↔ ln = (i + 1)%nat ∧ ∃ part, line_tokens raw = [part])
  ∧ (Check.input_line i raw = LineBlank ↔ line_tokens raw = []).
Proof.
  pose proof (blank_iff_no_tokens raw) as Hblank.
  assert (∀ parts : list string,
    length (parsed_ids parts) = length parts
    ↔ Forall (λ part, is_Some (Py.int part)) parts) as Hints.
  { induction parts as [|p parts IH]; [by split; [constructor|]|].
    assert (length (parsed_ids parts) ≤ length parts)%nat as Hle.
    { clear. induction parts as [|q parts IH]; [done|]. simpl.
      destruct (Py.int q); simpl; lia. }
    simpl. rewrite Forall_cons, <- IH.
    destruct (Py.int p); simpl; [|split; [lia|by intros [[??] _]]].
    split; [intros [=]; eauto|intros [_ ->]; done]. }
  split_and!; [done|..].
  - intros ln. unfold line_warning, line_frame.
    destruct (Py.is_empty (Py.strip raw)) eqn:Hempty.
    { rewrite (proj1 Hblank eq_refl). split; [done|]. simpl. lia. }
    rewrite <- Hints.
    destruct (line_tokens raw) as [|p0 [|p1 [|p2 parts]]] eqn:Htok.
    + destruct Hblank as [_ Hblank]. by specialize (Hblank eq_refl).
    + simpl. destruct (Py.int p0); simpl; (split; [done|lia]).
    + simpl. destruct (Py.int p0); simpl; [|split; [done|lia]].
      destruct (Py.int p1); simpl; (split; [done|lia]).
    + cbn [frame_of_tokens].
      destruct (length (parsed_ids (p0 :: p1 :: p2 :: parts))
                <? length (p0 :: p1 :: p2 :: parts))%nat eqn:Hlt.
      * apply Nat.ltb_lt in Hlt. split; [done|lia].
      * apply Nat.ltb_ge in Hlt.
        assert (length (parsed_ids (p0 :: p1 :: p2 :: parts))
                ≤ length (p0 :: p1 :: p2 :: parts))%nat.
        { clear. generalize (p0 :: p1 :: p2 :: parts).
          induction l as [|q l IH]; [done|]. simpl.
          destruct (Py.int q); simpl; lia. }
        split; [intros [= <-]|intros (-> & _ & _); done].
        split_and!; [done|simpl; lia|lia].
  - intros ln. unfold Check.input_line.
    destruct (Py.is_empty (Py.strip raw)) eqn:Hempty.
    { rewrite (proj1 Hblank eq_refl). split; [done|by intros [_ [??]]]. }
    fold (line_tokens raw).
    destruct (line_tokens raw) as [|p0 [|p1 parts]].
    + destruct Hblank as [_ Hblank]. by specialize (Hblank eq_refl).
    + split; [intros [= <-]; eauto|by intros [-> _]].
    + split; [|by intros [_ [??]]].
      intros H. repeat (case_match; simplify_eq).
  - unfold Check.input_line.
    destruct (Py.is_empty (Py.strip raw)) eqn:Hempty.
    { by rewrite (proj1 Hblank eq_refl). }
    fold (line_tokens raw). split.
    + intros H. repeat (case_match; simplify_eq).
    + intros Htok. destruct Hblank as [_ Hblank]. by specialize (Hblank Htok).
Qed.

End orchestration.

(** ** The two source files *)

(** C10. The five core logic functions of [api/check.py] and of
    [api/index.py], each translated from its own file, return the same
    result on every input (and so does [check_files]). *)
Theorem check_and_index_agree :
  (∀ content,
     Check.read_and_verify_output content
       = Index.read_and_verify_output content)
  ∧ (∀ content, Check.read_input_file content = Index.read_input_file content)
  ∧ (∀ frame paintings,
     Check.compute_frameglass_tags frame paintings
       = Index.compute_frameglass_tags frame paintings)
  ∧ (∀ tags1 tags2,
     Check.compute_transition_score tags1 tags2
       = Index.compute_transition_score tags1 tags2)
  ∧ (∀ frames paintings,
     Check.compute_global_score frames paintings
       = Index.compute_global_score frames paintings)
  ∧ (∀ input_content output_content,
     Check.check_files input_content output_content
       = Index.check_files input_content output_content).
Proof.
  split_and!.
  - intros content. reflexivity.
  - intros content. reflexivity.
  - intros frame paintings. reflexivity.
  - intros tags1 tags2. reflexivity.
  - intros frames paintings. reflexivity.
  - intros input_content output_content. reflexivity.
Qed.

(** ** Checks on concrete texts *)

Example strip_ex : Py.strip ("  1 2 " +:+ nl) = "1 2"%string.
Proof. reflexivity. Qed.

Example split_ex : Py.split " a  bc d " = ["a"; "bc"; "d"]%string.
Proof. reflexivity. Qed.

Example split_sep_ex :
  Py.split_sep Py.LF ("a" +:+ nl +:+ nl +:+ "b") = ["a"; ""; "b"]%string.
Proof. reflexivity. Qed.

Example int_ex :
  Py.int <$> ["007"; "-5"; "+5"; "1_0"; "_1"; "1_"; "1__0"; "+"; ""; "1 2";
              "0x1"; " 5 "]%string
  = [Some 7; Some (-5); Some 5; Some 10; None; None; None; None; None; None;
     None; Some 5].
Proof. vm_compute. reflexivity. Qed.

Example slice_ex :
  (Py.slice [1; 2; 3; 4; 5] 2 (-1), Py.slice [1; 2; 3; 4; 5] 2 1,
   Py.slice [1; 2; 3; 4; 5] 2 12)
  = ([3; 4], [], [3; 4; 5]).
Proof. reflexivity. Qed.

Example read_input_file_ex :
  Check.read_input_file two_paintings_text = (Some two_paintings, []).
Proof. vm_compute. reflexivity. Qed.

Example read_and_verify_output_ex :
  Check.read_and_verify_output one_frame_text = (Some [(0, Some 1)], []).
Proof. vm_compute. reflexivity. Qed.

Example same_frame_duplicate_ex :
  Check.read_and_verify_output ("1" +:+ nl +:+ "3 3")
  = (None, [DuplicateInSameFrameError 2 "3"]).
Proof. vm_compute. reflexivity. Qed.

Example check_files_ex :
  Check.check_files two_paintings_text one_frame_text = Success 1 2 0 [].
Proof. vm_compute. reflexivity. Qed.

Example compute_global_score_ex :
  Check.compute_global_score [(0, None); (1, None); (2, None)] three_paintings
  = Some 3.
Proof. vm_compute. reflexivity. Qed.

Example missing_reference_ex :
  Check.compute_global_score [(0, None); (9, None); (2, None)] three_paintings
  = Some 0.
Proof. vm_compute. reflexivity. Qed.

Example noisy_output_ex :
  Check.read_and_verify_output noisy_frames_text
  = (Some three_frames, [InvalidPartsWarning 4; InvalidLineWarning 6 "8 x"]).
Proof. vm_compute. reflexivity. Qed.

Example non_integer_pair_ex :
  Check.read_and_verify_output ("1" +:+ nl +:+ "x x")
  = (None, [DuplicateInSameFrameError 2 "x"]).
Proof. vm_compute. reflexivity. Qed.

Example negative_tag_count_ex :
  Check.read_input_file negative_tags_text
  = (Some negative_tags_paintings, []).
Proof. vm_compute. reflexivity. Qed.
